(** * The exercise-15 document store ([src/exercises/exercise-15/database.ts])

    A shallow embedding of the [Database] class: the record codec
    ([toLine] and the decoding in [loadAll]), the whole-file rewrite done
    by [flush], the query pipeline ([filterAnd], [filterOr], [filterText],
    [filterParams], [queryMatches]), [sort], [project] and the three
    public operations [insert], [find] and [delete].

    Modelling choices, all visible in the definitions below:
    - a JavaScript value is [undefined], [null], a boolean, an integer
      ([Z]: exact, as JavaScript's numbers are up to 2^53; floating point
      is not modelled) or a string; a string is a sequence of code units
      below 256;
    - an object is an association list in property order (keys that look
      like array indices, which JavaScript enumerates first, are not
      treated specially);
    - [JSON.stringify] and [JSON.parse] are modelled on the fragment made
      of objects whose members are such values, printed without white
      space, as [JSON.stringify] prints them;
    - [new RegExp] is modelled on patterns made of literal characters,
      [.] and the assertion [\b];
    - the file system is one file that may be absent; [readFile] and
      [writeFile] are atomic, and [writeFile] does not fail.

    What the definitions leave out, and the statements therefore do not
    cover: numbers that are not integers ([NaN], the infinities,
    fractions), nested objects and arrays as values; texts that
    [JSON.parse] accepts without their being an object of the fragment
    (a number, [null], an array, white space), which are read as a
    syntax error here; a [writeFile] that fails; a query in which a field
    key carries [undefined] or an object that does not hold exactly one
    operator.

    After the class come the read-only [Database] of
    [src/unnamed/part_001], which reads the same file format, and
    [filterUsers] of [src/unnamed/part_000]. *)

From Stdlib Require Import ZArith NArith List String Ascii Bool Lia.
From Stdlib Require Import DecimalString DecimalFacts DecimalN DecimalZ.
From Stdlib Require Import Permutation.
Import ListNotations.

#[local] Open Scope string_scope.
#[local] Open Scope list_scope.

(** ** JavaScript values and objects *)

Inductive value : Type :=
| VUndefined
| VNull
| VBool (b : bool)
| VNum (n : Z)
| VStr (s : string).

Definition object : Type := list (string * value).

Definition value_eqb (a b : value) : bool :=
  match a, b with
  | VUndefined, VUndefined => true
  | VNull, VNull => true
  | VBool x, VBool y => Bool.eqb x y
  | VNum x, VNum y => Z.eqb x y
  | VStr x, VStr y => String.eqb x y
  | _, _ => false
  end.

(** [a === b] *)
Definition strict_eq (a b : value) : bool := value_eqb a b.

(** [!!v] *)
Definition truthy (v : value) : bool :=
  match v with
  | VUndefined => false
  | VNull => false
  | VBool b => b
  | VNum n => negb (Z.eqb n 0)
  | VStr s => negb (String.eqb s "")
  end.

(** [ToNumber]; [None] is NaN.  The conversion of a string goes through
    floating point and is not modelled: a string counts as NaN here, and
    no statement below relies on the comparison of a string with a value
    that is not a string (see [mixed]). *)
Definition ToNumber (v : value) : option Z :=
  match v with
  | VUndefined => None
  | VNull => Some 0%Z
  | VBool b => Some (Z.b2z b)
  | VNum n => Some n
  | VStr _ => None
  end.

(** [a < b]: two strings compare by code units, anything else as numbers. *)
Definition js_lt (a b : value) : bool :=
  match a, b with
  | VStr s, VStr t => String.ltb s t
  | _, _ =>
      match ToNumber a, ToNumber b with
      | Some x, Some y => Z.ltb x y
      | _, _ => false
      end
  end.

(** [a > b] *)
Definition js_gt (a b : value) : bool := js_lt b a.

(** a string against a value that is not a string: the one comparison that
    [js_lt] does not model *)
Definition mixed (a b : value) : bool :=
  match a, b with
  | VStr _, VStr _ => false
  | VStr _, _ => true
  | _, VStr _ => true
  | _, _ => false
  end.

(** [o[k]] *)
Fixpoint get (k : string) (o : object) : value :=
  match o with
  | [] => VUndefined
  | (k', v) :: o' => if String.eqb k k' then v else get k o'
  end.

(** [{...o, k: v}] *)
Fixpoint set (k : string) (v : value) (o : object) : object :=
  match o with
  | [] => [(k, v)]
  | (k', v') :: o' =>
      if String.eqb k k' then (k, v) :: o' else (k', v') :: set k v o'
  end.

(** the rest of [const {k, ...rest} = o] *)
Definition omit (k : string) (o : object) : object :=
  filter (fun kv => negb (String.eqb k (fst kv))) o.

Definition keys (o : object) : list string := map fst o.

(** [xs.includes(v)] *)
Definition includes (xs : list value) (v : value) : bool :=
  existsb (fun x => value_eqb x v) xs.

(** ** Strings *)

Definition dquote : ascii := "034"%char.
Definition bslash : ascii := "092"%char.
Definition newline : ascii := "010"%char.

(** [s.split(sep)] for a one-character separator *)
Fixpoint split (sep : ascii) (s : string) : list string :=
  match s with
  | EmptyString => [EmptyString]
  | String c r =>
      if Ascii.eqb c sep then EmptyString :: split sep r
      else match split sep r with
           | [] => [String c EmptyString]
           | w :: ws => String c w :: ws
           end
  end.

(** [toLowerCase] on one code unit below 256 *)
Definition lower_char (c : ascii) : ascii :=
  let n := N_of_ascii c in
  if ((65 <=? n) && (n <=? 90))%N then ascii_of_N (n + 32)
  else if ((192 <=? n) && (n <=? 222) && negb (n =? 215))%N
       then ascii_of_N (n + 32)
       else c.

Fixpoint toLowerCase (s : string) : string :=
  match s with
  | EmptyString => EmptyString
  | String c r => String (lower_char c) (toLowerCase r)
  end.

(** [s.startsWith(p)] *)
Definition startsWith (s p : string) : bool := String.prefix p s.

(** [s.slice(1)] *)
Definition slice1 (s : string) : string :=
  match s with
  | EmptyString => EmptyString
  | String _ r => r
  end.

(** ** JSON on the modelled fragment *)

Module JSON.

Definition hex_digit (n : N) : ascii :=
  if (n <? 10)%N then ascii_of_N (48 + n) else ascii_of_N (87 + n).

Definition of_hex (c : ascii) : option N :=
  let n := N_of_ascii c in
  if ((48 <=? n) && (n <=? 57))%N then Some (n - 48)%N
  else if ((97 <=? n) && (n <=? 102))%N then Some (n - 87)%N
  else if ((65 <=? n) && (n <=? 70))%N then Some (n - 55)%N
  else None.

(** QuoteJSONString on one code unit *)
Definition escape_char (c : ascii) : string :=
  let n := N_of_ascii c in
  if (n =? 8)%N then String bslash "b"
  else if (n =? 9)%N then String bslash "t"
  else if (n =? 10)%N then String bslash "n"
  else if (n =? 12)%N then String bslash "f"
  else if (n =? 13)%N then String bslash "r"
  else if (n =? 34)%N then String bslash (String dquote "")
  else if (n =? 92)%N then String bslash (String bslash "")
  else if (n <? 32)%N
       then String bslash
              (String "u" (String "0" (String "0"
                 (String (hex_digit (n / 16)) (String (hex_digit (n mod 16)) "")))))
       else String c "".

Fixpoint escape (s : string) : string :=
  match s with
  | EmptyString => EmptyString
  | String c r => escape_char c ++ escape r
  end.

Definition quote (s : string) : string :=
  String dquote (escape s ++ String dquote "").

Definition print_number (n : Z) : string :=
  NilEmpty.string_of_int (Z.to_int n).

Definition print_value (v : value) : string :=
  match v with
  | VUndefined => "null"
  | VNull => "null"
  | VBool true => "true"
  | VBool false => "false"
  | VNum n => print_number n
  | VStr s => quote s
  end.

Definition defined (kv : string * value) : bool :=
  match snd kv with
  | VUndefined => false
  | _ => true
  end.

Definition member (kv : string * value) : string :=
  quote (fst kv) ++ ":" ++ print_value (snd kv).

(** [JSON.stringify(o)]: members whose value is [undefined] are left out *)
Definition stringify (o : object) : string :=
  "{" ++ String.concat "," (map member (filter defined o)) ++ "}".

Definition simple_escape (e : ascii) : option ascii :=
  if Ascii.eqb e dquote then Some dquote
  else if Ascii.eqb e bslash then Some bslash
  else if Ascii.eqb e "/" then Some "/"%char
  else if Ascii.eqb e "b" then Some "008"%char
  else if Ascii.eqb e "f" then Some "012"%char
  else if Ascii.eqb e "n" then Some "010"%char
  else if Ascii.eqb e "r" then Some "013"%char
  else if Ascii.eqb e "t" then Some "009"%char
  else None.

Definition hex4 (a b c d : ascii) : option ascii :=
  match of_hex a, of_hex b, of_hex c, of_hex d with
  | Some 0%N, Some 0%N, Some x, Some y => Some (ascii_of_N (16 * x + y))
  | _, _, _, _ => None
  end.

Definition push (c : ascii) (r : option (string * string)) :
  option (string * string) :=
  match r with
  | Some (s, rest) => Some (String c s, rest)
  | None => None
  end.

(** the characters of a JSON string after its opening quote: the decoded
    string and what follows the closing quote *)
Fixpoint unquote (s : string) : option (string * string) :=
  match s with
  | EmptyString => None
  | String c r =>
      if Ascii.eqb c dquote then Some (EmptyString, r)
      else if Ascii.eqb c bslash then
        match r with
        | EmptyString => None
        | String e r' =>
            match simple_escape e with
            | Some d => push d (unquote r')
            | None =>
                if Ascii.eqb e "u" then
                  match r' with
                  | String h1 (String h2 (String h3 (String h4 r''))) =>
                      match hex4 h1 h2 h3 h4 with
                      | Some d => push d (unquote r'')
                      | None => None
                      end
                  | _ => None
                  end
                else None
            end
        end
      else if (N_of_ascii c <? 32)%N then None
      else push c (unquote r)
  end.

Definition is_digit (c : ascii) : bool :=
  let n := N_of_ascii c in ((48 <=? n) && (n <=? 57))%N.

Fixpoint span_digits (s : string) : string * string :=
  match s with
  | EmptyString => (EmptyString, EmptyString)
  | String c r =>
      if is_digit c
      then let (d, rest) := span_digits r in (String c d, rest)
      else (EmptyString, s)
  end.

Definition parse_digits (s : string) : option (Decimal.uint * string) :=
  let (ds, rest) := span_digits s in
  match ds with
  | EmptyString => None
  | String "0" (String _ _) => None
  | _ =>
      match NilEmpty.uint_of_string ds with
      | Some u => Some (u, rest)
      | None => None
      end
  end.

Definition parse_number (s : string) : option (value * string) :=
  match s with
  | String "-" r =>
      match parse_digits r with
      | Some (u, rest) => Some (VNum (Z.of_int (Decimal.Neg u)), rest)
      | None => None
      end
  | _ =>
      match parse_digits s with
      | Some (u, rest) => Some (VNum (Z.of_int (Decimal.Pos u)), rest)
      | None => None
      end
  end.

Definition parse_value (s : string) : option (value * string) :=
  match s with
  | String "t" (String "r" (String "u" (String "e" r))) => Some (VBool true, r)
  | String "f" (String "a" (String "l" (String "s" (String "e" r)))) =>
      Some (VBool false, r)
  | String "n" (String "u" (String "l" (String "l" r))) => Some (VNull, r)
  | String c r =>
      if Ascii.eqb c dquote then
        match unquote r with
        | Some (x, rest) => Some (VStr x, rest)
        | None => None
        end
      else parse_number s
  | EmptyString => None
  end.

Fixpoint parse_members (fuel : nat) (s : string) (acc : object) :
  option object :=
  match fuel with
  | O => None
  | S fuel' =>
      match s with
      | String c r =>
          if Ascii.eqb c dquote then
            match unquote r with
            | Some (k, String ":" r1) =>
                match parse_value r1 with
                | Some (v, String "," r2) => parse_members fuel' r2 (set k v acc)
                | Some (v, String "}" EmptyString) => Some (set k v acc)
                | _ => None
                end
            | _ => None
            end
          else None
      | EmptyString => None
      end
  end.

(** [JSON.parse(s)] for a text that is an object; a later member with the
    same key overrides an earlier one.  [None] stands for a [SyntaxError]
    or for a text outside the fragment. *)
Definition parse (s : string) : option object :=
  match s with
  | String "{" (String "}" EmptyString) => Some []
  | String "{" r => parse_members (String.length r) r []
  | _ => None
  end.

End JSON.

(** ** Regular expressions on the modelled fragment *)

Module RegExp.

Inductive atom : Type :=
| Char (c : ascii)
| Dot
| WordBoundary.

(** SyntaxCharacter of the pattern grammar *)
Definition is_syntax_char (c : ascii) : bool :=
  existsb (Ascii.eqb c)
    ["^"; "$"; bslash; "."; "*"; "+"; "?"; "("; ")"; "["; "]"; "{"; "}"; "|"]%char.

(** [new RegExp(p)]: [None] stands for a [SyntaxError] or for a pattern
    outside the fragment (quantifiers, groups, classes, other escapes). *)
Fixpoint compile (p : string) : option (list atom) :=
  match p with
  | EmptyString => Some []
  | String c r =>
      if Ascii.eqb c bslash then
        match r with
        | String "b" r' => option_map (cons WordBoundary) (compile r')
        | _ => None
        end
      else if Ascii.eqb c "." then option_map (cons Dot) (compile r)
      else if is_syntax_char c then None
      else option_map (cons (Char c)) (compile r)
  end.

(** the class [\w] *)
Definition is_word (c : ascii) : bool :=
  let n := N_of_ascii c in
  (((97 <=? n) && (n <=? 122)) || ((65 <=? n) && (n <=? 90))
   || ((48 <=? n) && (n <=? 57)) || (n =? 95))%N.

Definition is_word_at (c : option ascii) : bool :=
  match c with
  | Some c => is_word c
  | None => false
  end.

Definition first (s : string) : option ascii :=
  match s with
  | EmptyString => None
  | String c _ => Some c
  end.

Definition line_terminator (c : ascii) : bool :=
  Ascii.eqb c "010" || Ascii.eqb c "013".

(** the atoms match at the current position; [prev] is the character
    before it *)
Fixpoint match_here (atoms : list atom) (prev : option ascii) (s : string) :
  bool :=
  match atoms with
  | [] => true
  | WordBoundary :: rest =>
      xorb (is_word_at prev) (is_word_at (first s)) && match_here rest prev s
  | Char c :: rest =>
      match s with
      | String d s' => Ascii.eqb c d && match_here rest (Some d) s'
      | EmptyString => false
      end
  | Dot :: rest =>
      match s with
      | String d s' => negb (line_terminator d) && match_here rest (Some d) s'
      | EmptyString => false
      end
  end.

Fixpoint search (atoms : list atom) (prev : option ascii) (s : string) : bool :=
  match_here atoms prev s
  || match s with
     | String d s' => search atoms (Some d) s'
     | EmptyString => false
     end.

(** whether [s.match(new RegExp(p))] finds a match *)
Definition test (p s : string) : option bool :=
  option_map (fun atoms => search atoms None s) (compile p).

End RegExp.

(** ** Results of calls that may throw *)

Inductive JsError : Type :=
| ENOENT        (* the file does not exist *)
| TypeError
| BadSyntax.    (* a SyntaxError, or an input outside the modelled fragment *)

Inductive result (A : Type) : Type :=
| Ok (a : A)
| Throw (e : JsError).

Arguments Ok {A} a.
Arguments Throw {A} e.

Definition bind {A B : Type} (r : result A) (k : A -> result B) : result B :=
  match r with
  | Ok a => k a
  | Throw e => Throw e
  end.

Notation "x <- r ;; k" := (bind r (fun x => k))
  (at level 61, r at next level, right associativity).

(** [xs.map(f)] with a callback that may throw *)
Fixpoint mapM {A B : Type} (f : A -> result B) (xs : list A) : result (list B) :=
  match xs with
  | [] => Ok []
  | x :: r => y <- f x ;; ys <- mapM f r ;; Ok (y :: ys)
  end.

(** [xs.some(p)], [xs.every(p)] and [xs.filter(p)], left to right, with a
    callback that may throw *)
Fixpoint someM {A : Type} (p : A -> result bool) (xs : list A) : result bool :=
  match xs with
  | [] => Ok false
  | x :: r => b <- p x ;; if b then Ok true else someM p r
  end.

Fixpoint everyM {A : Type} (p : A -> result bool) (xs : list A) : result bool :=
  match xs with
  | [] => Ok true
  | x :: r => b <- p x ;; if b then everyM p r else Ok false
  end.

Fixpoint filterM {A : Type} (p : A -> result bool) (xs : list A) :
  result (list A) :=
  match xs with
  | [] => Ok []
  | x :: r => b <- p x ;; ys <- filterM p r ;; Ok (if b then x :: ys else ys)
  end.

(** [xs.sort(cmp)]: a stable sort; [x] stays before [y] unless
    [cmp x y > 0] *)
Fixpoint sort_insert {A : Type} (cmp : A -> A -> Z) (x : A) (l : list A) :
  list A :=
  match l with
  | [] => [x]
  | y :: l' => if (cmp x y >? 0)%Z then y :: sort_insert cmp x l' else x :: l
  end.

Definition Array_sort {A : Type} (cmp : A -> A -> Z) (l : list A) : list A :=
  fold_right (sort_insert cmp) [] l.

(** ** The database *)

(** [QueryParam<Prop>] *)
Inductive QueryParam : Type :=
| Q_eq (expected : value)          (* {$eq: expected} *)
| Q_gt (expected : value)          (* {$gt: expected} *)
| Q_lt (expected : value)          (* {$lt: expected} *)
| Q_in (expected : list value).    (* {$in: expected} *)

(** [Queryable<Entity>], as [Object.entries] lists it *)
Definition Queryable : Type := list (string * QueryParam).

(** one entry of [Query<Entity> = Queryable<Entity> & Operators<Entity>] *)
Inductive QueryEntry : Type :=
| Field (field : string) (test : QueryParam)
| And (subs : list Queryable)      (* $and *)
| Or (subs : list Queryable)       (* $or *)
| Text (text : string).            (* $text *)

(** [Query<Entity>], as [Object.entries] lists it *)
Definition Query : Type := list QueryEntry.

Definition entry_key (e : QueryEntry) : string :=
  match e with
  | Field field _ => field
  | And _ => "$and"
  | Or _ => "$or"
  | Text _ => "$text"
  end.

(** a sub-query of [$and] or [$or] seen as a query *)
Definition sub_query (sub : Queryable) : Query :=
  map (fun ft => Field (fst ft) (snd ft)) sub.

(** [QuerySort<Entity>], as [Object.entries] lists it; a direction is
    [1] or [-1] *)
Definition QuerySort : Type := list (string * Z).

(** [QueryProjection<Entity>], as [Object.keys] lists it *)
Definition QueryProjection : Type := list string.

Record QueryOptions : Type := {
  opt_sort : option QuerySort;
  opt_projection : option QueryProjection;
  opt_deleted : option bool
}.

(** [opts = {}] *)
Definition no_options : QueryOptions :=
  {| opt_sort := None; opt_projection := None; opt_deleted := None |}.

(** the file named [this.filename] and the promise [this.lock]: fulfilled
    ([None]) or rejected with an error *)
Record state : Type := {
  file : option string;
  lock : option JsError
}.

Module Database.

Section Database.

(** [this.fullTextSearchFieldNames] *)
Variable fullTextSearchFieldNames : list string.

(** *** Data read / write *)

Definition readFile (st : state) : result string :=
  match file st with
  | Some data => Ok data
  | None => Throw ENOENT
  end.

(** the callback of [map] in [loadAll] *)
Definition decode (raw : string) : result object :=
  match JSON.parse (slice1 raw) with
  | Some o =>
      Ok (set "exists"
            (VBool (match raw with
                    | String "E" _ => true
                    | _ => false
                    end)) o)
  | None => Throw BadSyntax
  end.

Definition nonempty (line : string) : bool :=
  negb (String.eqb line "").

Definition parseData (data : string) : result (list object) :=
  mapM decode (List.filter nonempty (split newline data)).

Definition loadAll (st : state) : result (list object) :=
  data <- readFile st ;; parseData data.

Definition exists_ (r : object) : bool := truthy (get "exists" r).

Definition live (all : list object) : list object :=
  map (omit "exists") (List.filter exists_ all).

Definition load (st : state) : result (list object) :=
  all <- loadAll st ;; Ok (live all).

Definition toLine (r : object) : string :=
  String (if exists_ r then "E" else "D")%char (JSON.stringify (omit "exists" r)).

(** the text that the callback in [flush] hands to [writeFile] *)
Definition flushData (all inserts deletes : list object) : string :=
  let deletedIds := map (get "_id") deletes in
  let newDeletables := map (set "exists" (VBool true)) inserts in
  fold_left (fun acc e => (acc ++ String newline (toLine e))%string)
    (map (fun e => if includes deletedIds (get "_id" e)
                   then set "exists" (VBool false) e else e) all
     ++ newDeletables)
    "".

(** [await this.flush(inserts, deletes)], run to completion: a rejected
    [this.lock] stays rejected and the callback never runs *)
Definition flush (inserts deletes : list object) (st : state) :
  result unit * state :=
  match lock st with
  | Some e => (Throw e, st)
  | None =>
      match loadAll st with
      | Throw e => (Throw e, {| file := file st; lock := Some e |})
      | Ok all =>
          (Ok tt, {| file := Some (flushData all inserts deletes); lock := None |})
      end
  end.

(** *** Query operators *)

Definition matches (test : QueryParam) (actual : value) : bool :=
  match test with
  | Q_eq expected => strict_eq actual expected
  | Q_gt expected => js_gt actual expected
  | Q_lt expected => js_lt actual expected
  | Q_in expected => includes expected actual
  end.

Definition queryMatches (query : Query) (entity : object) : bool :=
  fold_left
    (fun (acc : bool) (e : QueryEntry) =>
       if negb acc || startsWith (entry_key e) "$" then acc
       else match e with
            | Field field test => matches test (get field entity)
            | _ => false
            end)
    query true.

Definition filterParams (query : Query) (entities : list object) : list object :=
  List.filter (fun entity => queryMatches query entity) entities.

Fixpoint q_and (query : Query) : option (list Queryable) :=
  match query with
  | [] => None
  | And subs :: _ => Some subs
  | _ :: rest => q_and rest
  end.

Fixpoint q_or (query : Query) : option (list Queryable) :=
  match query with
  | [] => None
  | Or subs :: _ => Some subs
  | _ :: rest => q_or rest
  end.

Fixpoint q_text (query : Query) : option string :=
  match query with
  | [] => None
  | Text text :: _ => Some text
  | _ :: rest => q_text rest
  end.

Definition filterAnd (query : Query) (entities : list object) : list object :=
  match q_and query with
  | Some subs =>
      fold_left (fun acc sub => filterParams (sub_query sub) acc) subs entities
  | None => entities
  end.

Definition filterOr (query : Query) (entities : list object) : list object :=
  match q_or query with
  | Some subs =>
      List.filter
        (fun entity =>
           match List.find (fun sub => queryMatches (sub_query sub) entity)
                   subs with
           | Some _ => true
           | None => false
           end)
        entities
  | None => entities
  end.

(** the callback of [some] in [filterText] *)
Definition fieldContains (expected : string) (entity : object) (f : string) :
  result bool :=
  match get f entity with
  | VStr s =>
      match RegExp.test
              (String bslash "b" ++ expected ++ String bslash "b")%string
              (toLowerCase s) with
      | Some found => Ok found
      | None => Throw BadSyntax
      end
  | _ => Throw TypeError
  end.

Definition textMatches (words : list string) (entity : object) : result bool :=
  everyM (fun expected =>
            someM (fieldContains expected entity) fullTextSearchFieldNames)
         words.

Definition filterText (query : Query) (entities : list object) :
  result (list object) :=
  match q_text query with
  | Some text =>
      if String.eqb text "" then Ok entities
      else filterM (textMatches (split " " (toLowerCase text))) entities
  | None => Ok entities
  end.

Definition filter (query : Query) (entities : list object) :
  result (list object) :=
  acc <- filterText query (filterOr query (filterAnd query entities)) ;;
  Ok (filterParams query acc).

(** *** Query options *)

(** the callback of [reduce] in the comparator handed to [entities.sort] *)
Definition compare_step (a b : object) (acc : Z) (fd : string * Z) : Z :=
  let aValue := get (fst fd) a in
  let bValue := get (fst fd) b in
  if negb (Z.eqb acc 0) || strict_eq aValue bValue then acc
  else if js_gt aValue bValue then snd fd
  else if js_lt aValue bValue then (- snd fd)%Z
  else 0%Z.

(** the comparator handed to [entities.sort] *)
Definition compareBy (sort : QuerySort) (a b : object) : Z :=
  fold_left (compare_step a b) sort 0%Z.

Definition sort (sort : option QuerySort) (entities : list object) : list object :=
  match sort with
  | None => entities
  | Some s => Array_sort (compareBy s) entities
  end.

Definition project (projection : option QueryProjection)
  (entities : list object) : list object :=
  match projection with
  | None => entities
  | Some ks =>
      map (fun entity =>
             fold_left (fun acc key => set key (get key entity) acc) ks [])
          entities
  end.

(** *** The public operations, each awaited before the next call *)

Definition insert (entity : object) (st : state) : result unit * state :=
  flush [entity] [] st.

Definition find (query : Query) (opts : QueryOptions) (st : state) :
  result (list object) :=
  entities <- load st ;;
  found <- filter query entities ;;
  Ok (project (opt_projection opts) (sort (opt_sort opts) found)).

Definition delete (query : Query) (st : state) : result unit * state :=
  match load st with
  | Throw e => (Throw e, st)
  | Ok entities =>
      match filter query entities with
      | Throw e => (Throw e, st)
      | Ok matched => flush [] matched st
      end
  end.

End Database.

End Database.

Import Database.

(** ** The event loop

    [flush] chains its callback on [this.lock] with [then] and awaits the
    new promise: the callback starts once the promise of the callback
    before it is fulfilled, that is once that callback has written the
    file; and no callback runs once one has thrown.  Calls of [flush] may
    arrive at any turn. *)

Module EventLoop.

(** one call [this.flush(inserts, deletes)] *)
Record mutation : Type := {
  inserts : list object;
  deletes : list object
}.

(** the call that [insert(entity)] makes *)
Definition insertion (entity : object) : mutation :=
  {| inserts := [entity]; deletes := [] |}.

(** where the callback at the head of the chain of [this.lock] stands *)
Inductive running : Type :=
| Idle                                  (* every started callback has finished *)
| Loading (m : mutation)                (* awaits [readFile] *)
| Writing (m : mutation) (data : string) (* awaits [writeFile(data)] *)
| Rejected (e : JsError).               (* a callback threw: [this.lock] is rejected *)

(** the file, the callbacks chained on [this.lock] that have not started,
    in the order of their calls, and the callback that runs *)
Record loop : Type := {
  disk : option string;
  chain : list mutation;
  current : running
}.

Inductive event : Type :=
| Call (m : mutation)       (* [this.lock = this.lock.then(callback)] *)
| Begin (m : mutation)      (* the callback starts and calls [loadAll] *)
| Read (m : mutation)       (* [readFile] is done *)
| Rewritten (m : mutation)  (* [writeFile] is done *)
| Failed (m : mutation) (e : JsError)
| Skipped (m : mutation).

Definition on_disk (d : option string) : state := {| file := d; lock := None |}.

(** one turn of the event loop; calls may arrive at any time *)
Inductive step : loop -> event -> loop -> Prop :=
| step_call (d : option string) (ms : list mutation) (c : running) (m : mutation) :
    step {| disk := d; chain := ms; current := c |} (Call m)
         {| disk := d; chain := ms ++ [m]; current := c |}
| step_begin (d : option string) (ms : list mutation) (m : mutation) :
    step {| disk := d; chain := m :: ms; current := Idle |} (Begin m)
         {| disk := d; chain := ms; current := Loading m |}
| step_read (d : option string) (ms : list mutation) (m : mutation)
    (all : list object) :
    loadAll (on_disk d) = Ok all ->
    step {| disk := d; chain := ms; current := Loading m |} (Read m)
         {| disk := d; chain := ms;
            current := Writing m (flushData all (inserts m) (deletes m)) |}
| step_failed (d : option string) (ms : list mutation) (m : mutation)
    (e : JsError) :
    loadAll (on_disk d) = Throw e ->
    step {| disk := d; chain := ms; current := Loading m |} (Failed m e)
         {| disk := d; chain := ms; current := Rejected e |}
| step_rewritten (d : option string) (ms : list mutation) (m : mutation)
    (data : string) :
    step {| disk := d; chain := ms; current := Writing m data |} (Rewritten m)
         {| disk := Some data; chain := ms; current := Idle |}
| step_skipped (d : option string) (ms : list mutation) (m : mutation)
    (e : JsError) :
    step {| disk := d; chain := m :: ms; current := Rejected e |} (Skipped m)
         {| disk := d; chain := ms; current := Rejected e |}.

Inductive run (l0 : loop) : list event -> loop -> Prop :=
| run_nil : run l0 [] l0
| run_snoc (t : list event) (l l' : loop) (ev : event) :
    run l0 t l -> step l ev l' -> run l0 (t ++ [ev]) l'.

(** a new database on an existing file *)
Definition start (data : string) : loop :=
  {| disk := Some data; chain := []; current := Idle |}.

(** the mutations called, in the order of the calls *)
Definition calls (t : list event) : list mutation :=
  flat_map (fun ev => match ev with Call m => [m] | _ => [] end) t.



End EventLoop.

Import EventLoop.

(** ** Notions used in the statements *)

(** *** Objects and JSON *)

Definition is_defined (v : value) : Prop := v <> VUndefined.

(** a JavaScript object holding JSON data: distinct keys, no [undefined] *)
Definition plain (o : object) : Prop :=
  NoDup (keys o) /\ Forall (fun kv => is_defined (snd kv)) o.

(** an entity as the log can hold it: JSON data, and no field called
    [exists], the name that [Deletable<Entity>] adds *)
Definition storable (e : object) : Prop :=
  plain e /\ ~ In "exists" (keys e).

(** [{...acc, [k]: v}] for a member [(k, v)] *)
Definition assign (acc : object) (kv : string * value) : object :=
  set (fst kv) (snd kv) acc.

(** what [JSON.parse (JSON.stringify o)] keeps of [o] *)
Definition norm (o : object) : object :=
  fold_left assign (List.filter JSON.defined o) [].

(** what [find] returns of an inserted entity *)
Definition stored (e : object) : object := norm (omit "exists" e).

(** a decimal numeral without a leading zero *)
Definition canonical (u : Decimal.uint) : Prop :=
  match u with
  | Decimal.Nil => False
  | Decimal.D0 Decimal.Nil => True
  | Decimal.D0 _ => False
  | _ => True
  end.

(** *** The log *)

(** no newline in the string *)
Fixpoint one_line (s : string) : bool :=
  match s with
  | EmptyString => true
  | String c r => negb (Ascii.eqb c newline) && one_line r
  end.

(** the text written for a list of records *)
Definition lines (rs : list object) : string :=
  String.concat "" (map (fun r => String newline (toLine r)) rs).

(** a record as [loadAll] reads it back after [toLine] wrote it *)
Definition reread (r : object) : object :=
  set "exists" (VBool (exists_ r)) (norm (omit "exists" r)).

(** a record as [loadAll] returns it *)
Definition record_ok (r : object) : Prop :=
  plain r /\ exists b, get "exists" r = VBool b.

(** the callback of [all.map] in [flush] *)
Definition mark (deletes : list object) (e : object) : object :=
  if includes (map (get "_id") deletes) (get "_id" e)
  then set "exists" (VBool false) e else e.

(** the records that [flush] writes *)
Definition rewritten (all inserts deletes : list object) : list object :=
  map (mark deletes) all ++ map (set "exists" (VBool true)) inserts.

(** the non-empty lines of the log file *)
Definition log_lines (st : state) : list string :=
  match file st with
  | Some data => List.filter nonempty (split newline data)
  | None => []
  end.

(** the states that a database goes through: the constructor leaves
    [this.lock] fulfilled, and the file changes through [flush] only *)
Inductive reachable (fts : list string) : state -> Prop :=
| reach_new (f : option string) : reachable fts {| file := f; lock := None |}
| reach_insert (st : state) (e : object) :
    reachable fts st -> reachable fts (snd (insert e st))
| reach_delete (st : state) (q : Query) :
    reachable fts st -> reachable fts (snd (delete fts q st)).

(** *** Queries *)

(** the query [{_id: {$eq: v}}] *)
Definition by_id (v : value) : Query := [Field "_id" (Q_eq v)].

(** the test that [queryMatches] applies to one entry of the query *)
Definition entry_holds (entity : object) (e : QueryEntry) : bool :=
  startsWith (entry_key e) "$"
  || match e with
     | Field field test => matches test (get field entity)
     | _ => false
     end.

(** every field predicate of a sub-query holds of the entity; a key that
    starts with [$] is not a field name *)
Definition satisfies (entity : object) (sub : Queryable) : Prop :=
  forall field test,
    In (field, test) sub -> startsWith field "$" = false ->
    matches test (get field entity) = true.

(** *** Sorting *)

(** neither value is greater than the other: they are equal, or not
    ordered by [>] and [<] (a missing field, [null] against [0]) *)
Definition tied (x y : value) : Prop :=
  mixed x y = false /\ js_gt x y = false /\ js_lt x y = false.

(** *** Text search *)

(** the last character of [pre], or [prev] when [pre] is empty *)
Fixpoint last_char (prev : option ascii) (pre : string) : option ascii :=
  match pre with
  | EmptyString => prev
  | String c r => last_char (Some c) r
  end.

(** no character of the word is a syntax character of patterns *)
Fixpoint literal (w : string) : bool :=
  match w with
  | EmptyString => true
  | String c r => negb (RegExp.is_syntax_char c) && literal r
  end.

(** a word that stands for itself in a pattern and that [\b] can delimit:
    it has no syntax character, and it begins and ends with a letter, a
    digit or an underscore *)
Definition plain_word (w : string) : bool :=
  literal w
  && RegExp.is_word_at (RegExp.first w)
  && RegExp.is_word_at (last_char None w).

(** [w] occurs in [s] with no letter, digit or underscore next to it *)
Definition whole_word (w s : string) : Prop :=
  exists pre post,
    s = (pre ++ w ++ post)%string
    /\ RegExp.is_word_at (last_char None pre) = false
    /\ RegExp.is_word_at (RegExp.first post) = false.

(** the atoms of a pattern made of the characters of [w] *)
Fixpoint chars (w : string) : list RegExp.atom :=
  match w with
  | EmptyString => []
  | String c r => RegExp.Char c :: chars r
  end.

(** every full-text-search field of the entity holds a string, as the
    type [StringField] says *)
Definition text_fields (fts : list string) (entity : object) : Prop :=
  forall f, In f fts -> exists s, get f entity = VStr s.

(** some full-text-search field of the entity contains the word *)
Definition contains_word (fts : list string) (entity : object) (w : string) :
  Prop :=
  exists f s, In f fts /\ get f entity = VStr s /\ whole_word w (toLowerCase s).

(** *** Serialized writes *)

(** the records of the log after one mutation *)
Definition apply1 (all : list object) (m : mutation) : list object :=
  map reread (rewritten all (inserts m) (deletes m)).



(** the mutation of the cycle that runs *)
Definition in_flight (c : running) : list mutation :=
  match c with
  | Loading m => [m]
  | Writing m _ => [m]
  | _ => []
  end.


(** ** Sample data *)

(** an existing, empty log and a new database on it *)
Definition empty_store : state := {| file := Some ""; lock := None |}.

Definition ann : object := [("_id", VNum 1); ("name", VStr "Ann Lee")].

Definition bob : object := [("_id", VNum 2); ("name", VStr "Bob Ray")].

(** an entity with a field [exists] of its own *)
Definition flagged : object :=
  [("_id", VNum 7); ("name", VStr "Ann Lee"); ("exists", VBool false)].

(** the store after the entities were inserted one after the other *)
Definition store_of (es : list object) : state :=
  fold_left (fun st e => snd (insert e st)) es empty_store.

(** the entities and the sort mapping of the tie-break example *)
Definition a1b2 : object := [("_id", VNum 1); ("a", VNum 1); ("b", VNum 2)].

Definition a1b1 : object := [("_id", VNum 2); ("a", VNum 1); ("b", VNum 1)].

(** a sub-query with two field predicates *)
Definition both : Queryable := [("a", Q_eq (VNum 1)); ("b", Q_eq (VNum 1))].

Definition by_a_then_b_desc : QueryOptions :=
  {| opt_sort := Some [("a", 1%Z); ("b", (-1)%Z)];
     opt_projection := None; opt_deleted := None |}.

(** entities without a field [a], and one with it *)
Definition no_a_b1 : object := [("_id", VNum 1); ("b", VNum 1)].

Definition no_a_b3 : object := [("_id", VNum 1); ("b", VNum 3)].

Definition a5_b2 : object := [("_id", VNum 2); ("a", VNum 5); ("b", VNum 2)].

Definition cat_sat : object := [("_id", VNum 1); ("name", VStr "a cat sat")].

Definition sat_bang : object := [("_id", VNum 2); ("name", VStr "a cat sat!")].

(** two calls of [insert], the second while the first one loads *)
Definition two_calls : list event :=
  [Call (insertion ann); Begin (insertion ann); Call (insertion bob);
   Read (insertion ann); Rewritten (insertion ann);
   Begin (insertion bob); Read (insertion bob); Rewritten (insertion bob)].

Definition after_two_calls : loop :=
  {| disk := file (store_of [ann; bob]); chain := []; current := Idle |}.

(** ** The read-only database ([src/unnamed/part_001])

    An earlier [Database] with [find] only.  Its [load] keeps the lines
    that start with [E] and parses them; it adds no [exists] field.  Its
    [filter], [filterAnd], [filterOr], [filterText], [filterParams] and
    [queryMatches] are those of the class above, up to the name of a
    variable and two type casts. *)

Module Database1.

Section Database1.

(** [this.fullTextSearchFieldNames] *)
Variable fullTextSearchFieldNames : list string.

(** [line[0] === 'E'] *)
Definition live_line (line : string) : bool :=
  match line with
  | String "E" _ => true
  | _ => false
  end.

(** the callback of [map] in [load] *)
Definition parse_line (raw : string) : result object :=
  match JSON.parse (slice1 raw) with
  | Some o => Ok o
  | None => Throw BadSyntax
  end.

Definition load (f : option string) : result (list object) :=
  match f with
  | Some data => mapM parse_line (List.filter live_line (split newline data))
  | None => Throw ENOENT
  end.

Definition find (query : Query) (f : option string) : result (list object) :=
  entities <- load f ;; Database.filter fullTextSearchFieldNames query entities.

End Database1.

End Database1.

(** ** Filtering persons ([src/unnamed/part_000]) *)

Module Exercise4.

Definition isUser (person : object) : bool := truthy (get "occupation" person).

Definition filterUsers (persons : list object) (criteria : object) : list object :=
  List.filter
    (fun user =>
       forallb (fun fieldName =>
                  strict_eq (get fieldName user) (get fieldName criteria))
               (keys criteria))
    (List.filter isUser persons).

End Exercise4.

(** ** Notions used in the further statements *)

(** the tests that the stages of [filter] apply to one entity *)
Definition passes_and (query : Query) (entity : object) : bool :=
  match q_and query with
  | Some subs => forallb (fun sub => queryMatches (sub_query sub) entity) subs
  | None => true
  end.

Definition passes_or (query : Query) (entity : object) : bool :=
  match q_or query with
  | Some subs => existsb (fun sub => queryMatches (sub_query sub) entity) subs
  | None => true
  end.

(** the words of [$text], when [filterText] looks at them *)
Definition text_words (query : Query) : option (list string) :=
  match q_text query with
  | Some text =>
      if String.eqb text "" then None else Some (split " " (toLowerCase text))
  | None => None
  end.

Definition passes_text (fts : list string) (query : Query) (entity : object) :
  bool :=
  match text_words query with
  | Some words =>
      match textMatches fts words entity with
      | Ok found => found
      | Throw _ => false
      end
  | None => true
  end.

Definition accepts (fts : list string) (query : Query) (entity : object) : bool :=
  passes_and query entity && passes_or query entity
  && passes_text fts query entity && queryMatches query entity.

(** no element is directly followed by one that the comparator puts
    before it *)
Fixpoint ordered {A : Type} (cmp : A -> A -> Z) (l : list A) : Prop :=
  match l with
  | x :: ((y :: _) as rest) => (cmp x y <= 0)%Z /\ ordered cmp rest
  | _ => True
  end.

(** the number that the entity holds in a field *)
Definition number_at (f : string) (entity : object) : Z :=
  match get f entity with
  | VNum n => n
  | _ => 0%Z
  end.

(** the calls that change the log *)
Inductive op : Type :=
| OpInsert (entity : object)
| OpDelete (query : Query).

(** the state after calls awaited one after the other, whether they throw
    or not *)
Definition after (fts : list string) (ops : list op) (st : state) : state :=
  fold_left
    (fun st o =>
       match o with
       | OpInsert entity => snd (insert entity st)
       | OpDelete query => snd (delete fts query st)
       end)
    ops st.

(** the identifier of the entity is not one of those of [deleted] *)
Definition kept (deleted : list object) (entity : object) : bool :=
  negb (includes (map (get "_id") deleted) (get "_id" entity)).

(** the log [all'] continues the log [all]: the records of [all] are
    there, in order and with their content, none of them brought back to
    life, and new records may follow *)
Definition continues (all all' : list object) : Prop :=
  exists old new,
    all' = old ++ new
    /\ Forall2 (fun r r' => omit "exists" r' = omit "exists" r
                            /\ (exists_ r' = true -> exists_ r = true))
               all old.

(** the state after calls of [flush] awaited one after the other *)
Definition flushed (ms : list mutation) (st : state) : state :=
  fold_left (fun st m => snd (flush (inserts m) (deletes m) st)) ms st.

(** the state that an awaited call finds when the loop is at rest *)
Definition settled (l : loop) : state :=
  {| file := disk l;
     lock := match current l with
             | Rejected e => Some e
             | _ => None
             end |}.

(** a new database on a file that may be missing *)
Definition opened (d : option string) : loop :=
  {| disk := d; chain := []; current := Idle |}.

(** what every run keeps true, whether callbacks throw or not: the loop
    stands where awaited calls of the finished mutations would have left
    the database *)
Definition linear (d0 : option string) (t : list event) (l : loop) : Prop :=
  exists done,
    calls t = done ++ in_flight (current l) ++ chain l
    /\ settled l = flushed done (on_disk d0)
    /\ match current l with
       | Writing m data =>
           exists all,
             loadAll (on_disk (disk l)) = Ok all
             /\ data = flushData all (inserts m) (deletes m)
       | _ => True
       end.

(** after its tag character the line holds an object of the modelled
    fragment of JSON *)
Definition object_line (line : string) : Prop :=
  exists o, JSON.parse (slice1 line) = Some o.

(** ** Further sample data *)


(** a new database on a file that does not exist *)
Definition no_file : state := {| file := None; lock := None |}.

(** three of the persons of [src/unnamed/part_000] *)
Definition mustermann : object :=
  [("name", VStr "Max Mustermann"); ("age", VNum 25);
   ("occupation", VStr "Chimney sweep")].

Definition jane : object :=
  [("name", VStr "Jane Doe"); ("age", VNum 32); ("role", VStr "Administrator")].

Definition wilson : object :=
  [("name", VStr "Wilson"); ("age", VNum 23); ("occupation", VStr "Ball")].

(** * Proofs *)

(** ** [JSON.parse] after [JSON.stringify] *)

Lemma append_assoc (a b c : string) : ((a ++ b) ++ c = a ++ (b ++ c))%string.
Proof. induction a; simpl; congruence. Qed.

Lemma unquote_escape_char (c : ascii) (tail : string) :
  JSON.unquote (JSON.escape_char c ++ tail) = JSON.push c (JSON.unquote tail).
Proof.
  destruct c as [[] [] [] [] [] [] [] []]; reflexivity.
Qed.

(** reading back a quoted string *)
Lemma unquote_escape (s rest : string) :
  JSON.unquote (JSON.escape s ++ String dquote rest) = Some (s, rest).
Proof.
  induction s as [|c s IH]; simpl.
  - reflexivity.
  - rewrite append_assoc, unquote_escape_char, IH. reflexivity.
Qed.

Lemma nzhead_not_D0 (d d' : Decimal.uint) : Decimal.nzhead d <> Decimal.D0 d'.
Proof. induction d; simpl; try discriminate. exact IHd. Qed.

Lemma canonical_unorm (d : Decimal.uint) : canonical (Decimal.unorm d).
Proof.
  unfold Decimal.unorm.
  destruct (Decimal.nzhead d) eqn:E; simpl; auto.
  exfalso. exact (nzhead_not_D0 _ _ E).
Qed.

(** the numerals that [Z.to_int] prints have no leading zero *)
Lemma canonical_to_uint (p : positive) : canonical (Pos.to_uint p).
Proof.
  change (Pos.to_uint p) with (N.to_uint (Npos p)).
  rewrite <- (DecimalPos.Unsigned.of_to p), DecimalPos.Unsigned.to_of.
  apply canonical_unorm.
Qed.

Lemma span_digits_print (u : Decimal.uint) (c : ascii) (rest : string) :
  JSON.is_digit c = false ->
  JSON.span_digits (NilEmpty.string_of_uint u ++ String c rest)
  = (NilEmpty.string_of_uint u, String c rest).
Proof.
  intros Hc. induction u; simpl; rewrite ?IHu; try reflexivity.
  rewrite Hc. reflexivity.
Qed.

Lemma parse_digits_print (u : Decimal.uint) (c : ascii) (rest : string) :
  canonical u -> JSON.is_digit c = false ->
  JSON.parse_digits (NilEmpty.string_of_uint u ++ String c rest)
  = Some (u, String c rest).
Proof.
  intros Hu Hc. unfold JSON.parse_digits.
  rewrite span_digits_print by exact Hc.
  pose proof (NilEmpty.usu u) as E.
  destruct u; simpl in Hu; try contradiction;
    try (simpl in *; rewrite (NilEmpty.usu u) in *; reflexivity).
  destruct u; try contradiction. reflexivity.
Qed.

Lemma parse_number_pos (u : Decimal.uint) (c : ascii) (rest : string) :
  canonical u -> JSON.is_digit c = false ->
  JSON.parse_number (NilEmpty.string_of_uint u ++ String c rest)
  = Some (VNum (Z.of_int (Decimal.Pos u)), String c rest).
Proof.
  intros Hu Hc.
  pose proof (parse_digits_print u c rest Hu Hc) as E.
  unfold JSON.parse_number.
  destruct u; simpl in Hu; try contradiction;
    simpl NilEmpty.string_of_uint in *; simpl append in *; rewrite E; reflexivity.
Qed.

(** reading back a printed number, when no digit follows it *)
Lemma parse_number_print (n : Z) (c : ascii) (rest : string) :
  JSON.is_digit c = false ->
  JSON.parse_number (JSON.print_number n ++ String c rest)
  = Some (VNum n, String c rest).
Proof.
  intros Hc. unfold JSON.print_number.
  rewrite <- (DecimalZ.of_to n) at 2.
  destruct n as [|p|p]; simpl Z.to_int; simpl NilEmpty.string_of_int.
  - apply (parse_number_pos Decimal.zero); [exact I | exact Hc].
  - apply parse_number_pos; [apply canonical_to_uint | exact Hc].
  - simpl. rewrite (parse_digits_print _ c rest (canonical_to_uint p) Hc).
    reflexivity.
Qed.

Lemma parse_value_number (d : ascii) (s : string) :
  JSON.is_digit d = true \/ d = "-"%char ->
  JSON.parse_value (String d s) = JSON.parse_number (String d s).
Proof.
  destruct d as [[] [] [] [] [] [] [] []]; intros [H|H];
    try discriminate H; reflexivity.
Qed.

Lemma print_uint_head (u : Decimal.uint) :
  canonical u ->
  exists d s, NilEmpty.string_of_uint u = String d s /\ JSON.is_digit d = true.
Proof.
  destruct u; simpl; intros H; try contradiction; eauto.
Qed.

Lemma print_number_head (n : Z) :
  exists d s, JSON.print_number n = String d s
              /\ (JSON.is_digit d = true \/ d = "-"%char).
Proof.
  unfold JSON.print_number.
  destruct n as [|p|p]; simpl.
  - eauto.
  - destruct (print_uint_head _ (canonical_to_uint p)) as (d & s & E & H).
    rewrite E. eauto.
  - eauto.
Qed.

(** reading back a printed value *)
Lemma parse_value_print (v : value) (c : ascii) (rest : string) :
  is_defined v -> JSON.is_digit c = false ->
  JSON.parse_value (JSON.print_value v ++ String c rest)
  = Some (v, String c rest).
Proof.
  intros Hv Hc. destruct v as [| |b|n|s]; simpl.
  - now elim Hv.
  - reflexivity.
  - destruct b; reflexivity.
  - destruct (print_number_head n) as (d & s & E & H).
    pose proof (parse_number_print n c rest Hc) as P.
    rewrite E in *. simpl append in *.
    rewrite parse_value_number by exact H. exact P.
  - rewrite append_assoc. simpl. rewrite unquote_escape. reflexivity.
Qed.

Lemma parse_member (f : nat) (kv : string * value) (c : ascii) (tail : string)
  (acc : object) :
  is_defined (snd kv) -> JSON.is_digit c = false ->
  JSON.parse_members (S f) (JSON.member kv ++ String c tail) acc
  = match JSON.parse_value (JSON.print_value (snd kv) ++ String c tail) with
    | Some (v, String "," r2) => JSON.parse_members f r2 (set (fst kv) v acc)
    | Some (v, String "}" EmptyString) => Some (set (fst kv) v acc)
    | _ => None
    end.
Proof.
  intros Hv Hc. unfold JSON.member, JSON.quote. simpl.
  rewrite !append_assoc. simpl. rewrite unquote_escape. reflexivity.
Qed.

Lemma parse_members_print (ms : list (string * value)) :
  forall (fuel : nat) (acc : object),
    ms <> [] ->
    Forall (fun kv => is_defined (snd kv)) ms ->
    (List.length ms <= fuel)%nat ->
    JSON.parse_members fuel (String.concat "," (map JSON.member ms) ++ "}") acc
    = Some (fold_left assign ms acc).
Proof.
  induction ms as [|kv ms IH]; intros fuel acc Hne Hd Hf.
  - now elim Hne.
  - inversion Hd as [|? ? Hkv Hms]; subst.
    destruct fuel as [|f]; [simpl in Hf; lia|].
    destruct ms as [|kv' ms'].
    + simpl String.concat. simpl map.
      rewrite parse_member by (auto; reflexivity).
      rewrite parse_value_print by (auto; reflexivity). reflexivity.
    + change (String.concat "," (map JSON.member (kv :: kv' :: ms')))
        with (JSON.member kv ++ "," ++ String.concat "," (map JSON.member (kv' :: ms')))%string.
      rewrite !append_assoc. simpl ("," ++ _)%string.
      rewrite parse_member by (auto; reflexivity).
      rewrite parse_value_print by (auto; reflexivity).
      rewrite IH; [reflexivity | discriminate | exact Hms | simpl in *; lia].
Qed.

Lemma length_append (a b : string) :
  String.length (a ++ b) = (String.length a + String.length b)%nat.
Proof. induction a; simpl; congruence. Qed.

Lemma member_length (kv : string * value) : (1 <= String.length (JSON.member kv))%nat.
Proof. unfold JSON.member, JSON.quote. simpl. lia. Qed.

Lemma concat_members_length (ms : list (string * value)) :
  (List.length ms
   <= String.length (String.concat "," (map JSON.member ms) ++ "}"))%nat.
Proof.
  induction ms as [|kv ms IH]; [simpl; lia|].
  pose proof (member_length kv) as L.
  destruct ms as [|kv' ms'].
  - simpl String.concat. rewrite length_append. simpl. lia.
  - change (String.concat "," (map JSON.member (kv :: kv' :: ms')))
      with (JSON.member kv ++ "," ++ String.concat "," (map JSON.member (kv' :: ms')))%string.
    remember (String.concat "," (map JSON.member (kv' :: ms'))) as T.
    rewrite !append_assoc, !length_append in *.
    simpl in *. lia.
Qed.

Lemma defined_is_defined (kv : string * value) :
  JSON.defined kv = true -> is_defined (snd kv).
Proof. unfold JSON.defined, is_defined. destruct (snd kv); congruence. Qed.

(** [JSON.parse] reads back what [JSON.stringify] printed: the members whose
    value is not [undefined], a later member overriding an earlier one with
    the same key *)
Lemma parse_stringify (o : object) :
  JSON.parse (JSON.stringify o) = Some (norm o).
Proof.
  unfold JSON.stringify, norm.
  assert (Hd : Forall (fun kv => is_defined (snd kv)) (List.filter JSON.defined o)).
  { apply Forall_forall. intros kv H. apply filter_In in H.
    apply defined_is_defined, H. }
  destruct (List.filter JSON.defined o) as [|kv ms] eqn:E.
  - reflexivity.
  - pose proof (concat_members_length (kv :: ms)) as L.
    pose proof (parse_members_print (kv :: ms)
                  (String.length (String.concat "," (map JSON.member (kv :: ms)) ++ "}"))
                  [] ltac:(discriminate) Hd L) as P.
    remember (String.concat "," (map JSON.member (kv :: ms)) ++ "}")%string as r eqn:Er.
    assert (Hr : exists t, r = String dquote t).
    { rewrite Er. destruct ms; simpl; unfold JSON.member, JSON.quote; simpl; eauto. }
    destruct Hr as (t & ->). exact P.
Qed.

(** ** Objects *)

Lemma get_set_same (k : string) (v : value) (o : object) :
  get k (set k v o) = v.
Proof.
  induction o as [|[k' v'] o IH]; simpl.
  - now rewrite String.eqb_refl.
  - destruct (String.eqb k k') eqn:E; simpl; rewrite ?String.eqb_refl, ?E; auto.
Qed.


Lemma set_keys_in (k : string) (v : value) (o : object) :
  In k (keys o) -> keys (set k v o) = keys o.
Proof.
  induction o as [|[k' v'] o IH]; simpl; [tauto|].
  intros H. destruct (String.eqb k k') eqn:E; simpl.
  - apply String.eqb_eq in E. now subst.
  - f_equal. apply IH. destruct H as [H|H]; [|exact H].
    subst. now rewrite String.eqb_refl in E.
Qed.

Lemma set_notin (k : string) (v : value) (o : object) :
  ~ In k (keys o) -> set k v o = o ++ [(k, v)].
Proof.
  induction o as [|[k' v'] o IH]; simpl; [reflexivity|].
  intros H. destruct (String.eqb k k') eqn:E.
  - apply String.eqb_eq in E. subst. tauto.
  - f_equal. apply IH. tauto.
Qed.

Lemma keys_app (a b : object) : keys (a ++ b) = keys a ++ keys b.
Proof. apply map_app. Qed.

Lemma set_NoDup (k : string) (v : value) (o : object) :
  NoDup (keys o) -> NoDup (keys (set k v o)).
Proof.
  intros H. destruct (in_dec string_dec k (keys o)) as [i|n].
  - now rewrite set_keys_in.
  - rewrite set_notin, keys_app by exact n. simpl.
    apply NoDup_app; [exact H | constructor; [intros []|constructor] |].
    intros x Hx [<-|[]]. exact (n Hx).
Qed.

Lemma set_defined (k : string) (v : value) (o : object) :
  is_defined v -> Forall (fun kv => is_defined (snd kv)) o ->
  Forall (fun kv => is_defined (snd kv)) (set k v o).
Proof.
  intros Hv. induction 1 as [|[k' v'] o Hk Ho IH]; simpl.
  - constructor; [exact Hv | constructor].
  - destruct (String.eqb k k'); constructor; auto.
Qed.

Lemma omit_keys (k : string) (o : object) : ~ In k (keys (omit k o)).
Proof.
  unfold omit, keys. intros H. apply in_map_iff in H.
  destruct H as ([k' v] & E & H). simpl in E. subst k'.
  apply filter_In in H. destruct H as [_ H]. simpl in H.
  now rewrite String.eqb_refl in H.
Qed.

Lemma omit_notin (k : string) (o : object) : ~ In k (keys o) -> omit k o = o.
Proof.
  induction o as [|[k' v] o IH]; simpl; [reflexivity|].
  intros H. destruct (String.eqb k k') eqn:E; simpl.
  - apply String.eqb_eq in E. subst. tauto.
  - f_equal. apply IH. tauto.
Qed.

Lemma omit_set (k : string) (v : value) (o : object) :
  omit k (set k v o) = omit k o.
Proof.
  induction o as [|[k' v'] o IH]; simpl.
  - now rewrite String.eqb_refl.
  - destruct (String.eqb k k') eqn:E; simpl.
    + now rewrite String.eqb_refl.
    + now rewrite E, IH.
Qed.

Lemma get_omit_other (k k' : string) (o : object) :
  k <> k' -> get k (omit k' o) = get k o.
Proof.
  intros Hk. induction o as [|[k2 v2] o IH]; simpl; [reflexivity|].
  destruct (String.eqb k' k2) eqn:E; simpl.
  - apply String.eqb_eq in E. subst k2.
    apply String.eqb_neq in Hk. now rewrite Hk.
  - now rewrite IH.
Qed.

Lemma omit_NoDup (k : string) (o : object) :
  NoDup (keys o) -> NoDup (keys (omit k o)).
Proof.
  induction o as [|[k' v] o IH]; simpl; [auto|].
  intros H. inversion H as [|? ? Hn Hd]; subst.
  destruct (String.eqb k k'); simpl; [auto|].
  constructor; [|auto].
  intros Hin. apply Hn. unfold keys, omit in *.
  apply in_map_iff in Hin. destruct Hin as (x & Ex & Hx).
  apply filter_In in Hx. apply in_map_iff. exists x. tauto.
Qed.

Lemma omit_defined (k : string) (o : object) :
  Forall (fun kv => is_defined (snd kv)) o ->
  Forall (fun kv => is_defined (snd kv)) (omit k o).
Proof.
  intros H. apply Forall_forall. intros x Hx. apply filter_In in Hx.
  rewrite Forall_forall in H. apply H, Hx.
Qed.

Lemma fold_assign_app (ms acc : object) :
  NoDup (keys (acc ++ ms)) -> fold_left assign ms acc = acc ++ ms.
Proof.
  revert acc. induction ms as [|[k v] ms IH]; intros acc H; simpl.
  - now rewrite List.app_nil_r.
  - unfold assign at 2. simpl.
    assert (Hk : ~ In k (keys acc)).
    { rewrite keys_app in H. simpl in H.
      apply NoDup_remove_2 in H. intros Hin. apply H, in_or_app. now left. }
    rewrite set_notin by exact Hk.
    rewrite IH; rewrite <- List.app_assoc; [reflexivity | exact H].
Qed.

Lemma filter_defined_plain (o : object) :
  Forall (fun kv => is_defined (snd kv)) o -> List.filter JSON.defined o = o.
Proof.
  induction 1 as [|[k v] o Hv Ho IH]; simpl; [reflexivity|].
  unfold JSON.defined at 1. simpl. unfold is_defined in Hv. simpl in Hv.
  destruct v; try congruence.
Qed.

(** on JSON data the round trip is the identity *)
Lemma norm_plain (o : object) : plain o -> norm o = o.
Proof.
  intros [Hn Hd]. unfold norm. rewrite filter_defined_plain by exact Hd.
  now rewrite fold_assign_app.
Qed.

Lemma fold_assign_plain (ms acc : object) :
  Forall (fun kv => is_defined (snd kv)) ms -> plain acc ->
  plain (fold_left assign ms acc).
Proof.
  intros Hms. revert acc.
  induction Hms as [|[k v] ms Hv Hms IH]; intros acc [Hn Hd]; simpl.
  - now split.
  - apply IH. split; [now apply set_NoDup | now apply set_defined].
Qed.

Lemma norm_is_plain (o : object) : plain (norm o).
Proof.
  apply fold_assign_plain.
  - apply Forall_forall. intros kv H. apply filter_In in H.
    apply defined_is_defined, H.
  - split; constructor.
Qed.

(** ** What [JSON.parse] returns *)

Ltac break_match :=
  match goal with
  | |- context [match ?x with _ => _ end] => destruct x eqn:?
  | H : context [match ?x with _ => _ end] |- _ => destruct x eqn:?
  end.

Lemma parse_number_defined (s : string) (v : value) (r : string) :
  JSON.parse_number s = Some (v, r) -> is_defined v.
Proof.
  unfold JSON.parse_number. intros H.
  repeat break_match; inversion H; discriminate.
Qed.

Lemma parse_value_defined (s : string) (v : value) (r : string) :
  JSON.parse_value s = Some (v, r) -> is_defined v.
Proof.
  unfold JSON.parse_value. intros H.
  repeat break_match; try discriminate;
    try (inversion H; discriminate);
    try (eapply parse_number_defined; eassumption).
Qed.

Lemma parse_members_plain (fuel : nat) :
  forall (s : string) (acc o : object),
    plain acc -> JSON.parse_members fuel s acc = Some o -> plain o.
Proof.
  induction fuel as [|f IH]; intros s acc o Ha H; simpl in H; [discriminate|].
  repeat break_match; try discriminate;
    match goal with
    | Hv : JSON.parse_value _ = Some (?v, _) |- _ =>
        pose proof (parse_value_defined _ _ _ Hv) as Hd
    end.
  all: assert (Hs : forall k, plain (set k v acc))
         by (intros k; destruct Ha; split;
             [now apply set_NoDup | now apply set_defined]).
  all: first [ eapply IH; [|exact H]; apply Hs
             | inversion H; subst; apply Hs ].
Qed.

(** what [JSON.parse] returns is JSON data *)
Lemma parse_plain (s : string) (o : object) : JSON.parse s = Some o -> plain o.
Proof.
  unfold JSON.parse. intros H.
  repeat break_match; try discriminate;
    try (inversion H; subst; split; constructor);
    try (eapply parse_members_plain; [|exact H]; split; constructor).
Qed.

(** ** The lines of the log *)

Lemma one_line_app (a b : string) :
  one_line (a ++ b) = one_line a && one_line b.
Proof. induction a; simpl; [reflexivity|]. now rewrite IHa, andb_assoc. Qed.

Lemma split_one_line (l : string) :
  one_line l = true -> split newline l = [l].
Proof.
  induction l as [|c l IH]; simpl; [reflexivity|].
  intros H. apply andb_true_iff in H. destruct H as [Hc Hl].
  apply negb_true_iff in Hc. rewrite Hc, IH by exact Hl. reflexivity.
Qed.

Lemma split_line (l r : string) :
  one_line l = true ->
  split newline (l ++ String newline r) = l :: split newline r.
Proof.
  induction l as [|c l IH]; simpl; [reflexivity|].
  intros H. apply andb_true_iff in H. destruct H as [Hc Hl].
  apply negb_true_iff in Hc. rewrite Hc, IH by exact Hl. reflexivity.
Qed.

Lemma one_line_escape_char (c : ascii) : one_line (JSON.escape_char c) = true.
Proof. destruct c as [[] [] [] [] [] [] [] []]; reflexivity. Qed.

Lemma one_line_escape (s : string) : one_line (JSON.escape s) = true.
Proof.
  induction s; simpl; [reflexivity|].
  now rewrite one_line_app, one_line_escape_char.
Qed.

Lemma one_line_quote (s : string) : one_line (JSON.quote s) = true.
Proof.
  unfold JSON.quote. simpl. now rewrite one_line_app, one_line_escape.
Qed.

Lemma one_line_uint (u : Decimal.uint) :
  one_line (NilEmpty.string_of_uint u) = true.
Proof. induction u; simpl; auto. Qed.

Lemma one_line_value (v : value) : one_line (JSON.print_value v) = true.
Proof.
  destruct v as [| |[]|n|s]; try reflexivity.
  - unfold JSON.print_value, JSON.print_number.
    destruct (Z.to_int n); simpl; apply one_line_uint.
  - apply one_line_quote.
Qed.

Lemma one_line_member (kv : string * value) : one_line (JSON.member kv) = true.
Proof.
  unfold JSON.member.
  now rewrite !one_line_app, one_line_quote, one_line_value.
Qed.

Lemma one_line_concat (ls : list string) :
  Forall (fun l => one_line l = true) ls ->
  one_line (String.concat "," ls) = true.
Proof.
  induction 1 as [|l ls Hl Hls IH]; [reflexivity|].
  destruct ls as [|l' ls']; [exact Hl|].
  change (String.concat "," (l :: l' :: ls'))
    with (l ++ "," ++ String.concat "," (l' :: ls'))%string.
  now rewrite !one_line_app, Hl, IH.
Qed.

(** [JSON.stringify] prints no newline: it escapes the ones of strings *)
Lemma one_line_stringify (o : object) : one_line (JSON.stringify o) = true.
Proof.
  unfold JSON.stringify. rewrite !one_line_app, one_line_concat; [reflexivity|].
  apply Forall_forall. intros l H. apply in_map_iff in H.
  destruct H as (kv & <- & _). apply one_line_member.
Qed.

Lemma one_line_toLine (r : object) : one_line (toLine r) = true.
Proof.
  unfold toLine. destruct (exists_ r); simpl; apply one_line_stringify.
Qed.

Lemma concat_empty_cons (l : string) (ls : list string) :
  String.concat "" (l :: ls) = (l ++ String.concat "" ls)%string.
Proof.
  destruct ls; simpl.
  - induction l; simpl; congruence.
  - reflexivity.
Qed.

Lemma lines_cons (r : object) (rs : list object) :
  lines (r :: rs) = String newline (toLine r ++ lines rs).
Proof. unfold lines. simpl map. now rewrite concat_empty_cons. Qed.

Lemma append_empty (a : string) : (a ++ "")%string = a.
Proof. induction a; simpl; congruence. Qed.

Lemma fold_lines (rs : list object) (acc : string) :
  fold_left (fun acc e => (acc ++ String newline (toLine e))%string) rs acc
  = (acc ++ lines rs)%string.
Proof.
  revert acc. induction rs as [|r rs IH]; intros acc.
  - simpl. now rewrite append_empty.
  - simpl fold_left. rewrite IH, lines_cons, append_assoc. reflexivity.
Qed.

Lemma split_lines_tail (rs : list object) (l : string) :
  one_line l = true ->
  split newline (l ++ lines rs) = l :: map toLine rs.
Proof.
  revert l. induction rs as [|r rs IH]; intros l Hl.
  - unfold lines. simpl. rewrite append_empty. now apply split_one_line.
  - rewrite lines_cons, split_line by exact Hl.
    rewrite IH by apply one_line_toLine. reflexivity.
Qed.

(** the lines of the written text are an empty line and one line per record *)
Lemma split_lines (rs : list object) :
  split newline (lines rs) = EmptyString :: map toLine rs.
Proof. apply (split_lines_tail rs EmptyString). reflexivity. Qed.

Lemma nonempty_toLine (rs : list object) :
  List.filter nonempty (map toLine rs) = map toLine rs.
Proof.
  induction rs as [|r rs IH]; simpl; [reflexivity|].
  now rewrite IH.
Qed.

Lemma decode_toLine (r : object) : decode (toLine r) = Ok (reread r).
Proof.
  unfold decode, toLine, reread. simpl slice1. rewrite parse_stringify.
  destruct (exists_ r); reflexivity.
Qed.

Lemma mapM_decode_toLine (rs : list object) :
  mapM decode (map toLine rs) = Ok (map reread rs).
Proof.
  induction rs as [|r rs IH]; simpl; [reflexivity|].
  now rewrite decode_toLine, IH.
Qed.

(** [loadAll] reads back what [flush] wrote *)
Lemma parseData_lines (rs : list object) :
  parseData (lines rs) = Ok (map reread rs).
Proof.
  unfold parseData. rewrite split_lines. simpl List.filter.
  rewrite nonempty_toLine. apply mapM_decode_toLine.
Qed.

(** ** The records of the log *)

Lemma keys_fold_assign (ms acc : object) (k : string) :
  In k (keys (fold_left assign ms acc)) -> In k (keys acc) \/ In k (keys ms).
Proof.
  revert acc. induction ms as [|[k' v] ms IH]; intros acc H; simpl in *; [auto|].
  apply IH in H. destruct H as [H|H]; [|auto].
  unfold assign in H. simpl in H.
  destruct (in_dec string_dec k' (keys acc)) as [i|n].
  - rewrite set_keys_in in H by exact i. auto.
  - rewrite set_notin, keys_app in H by exact n.
    apply in_app_or in H. simpl in H. tauto.
Qed.

Lemma keys_norm (o : object) (k : string) : In k (keys (norm o)) -> In k (keys o).
Proof.
  unfold norm. intros H. apply keys_fold_assign in H.
  destruct H as [[]|H]. unfold keys in *. apply in_map_iff in H.
  destruct H as (x & E & H). apply filter_In in H. apply in_map_iff. exists x. tauto.
Qed.

Lemma decode_ok (raw : string) (r : object) : decode raw = Ok r -> record_ok r.
Proof.
  unfold decode. destruct (JSON.parse (slice1 raw)) as [o|] eqn:E; [|discriminate].
  intros H. injection H as <-. apply parse_plain in E. destruct E as [Hn Hd].
  split; [split|].
  - now apply set_NoDup.
  - apply set_defined; [discriminate | exact Hd].
  - eexists. apply get_set_same.
Qed.

Lemma mapM_Forall {A B : Type} (f : A -> result B) (P : B -> Prop) :
  (forall a b, f a = Ok b -> P b) ->
  forall xs ys, mapM f xs = Ok ys -> Forall P ys.
Proof.
  intros Hf. induction xs as [|x xs IH]; simpl; intros ys H.
  - injection H as <-. constructor.
  - destruct (f x) as [y|] eqn:E; [|discriminate]. simpl in H.
    destruct (mapM f xs) as [ys'|]; [|discriminate]. simpl in H.
    injection H as <-. constructor; eauto.
Qed.

Lemma parseData_ok (data : string) (all : list object) :
  parseData data = Ok all -> Forall record_ok all.
Proof. apply mapM_Forall. apply decode_ok. Qed.

(** every record that [loadAll] returns is JSON data with a boolean [exists] *)
Lemma loadAll_ok (st : state) (all : list object) :
  loadAll st = Ok all -> Forall record_ok all.
Proof.
  unfold loadAll, readFile. destruct (file st); simpl; [|discriminate].
  apply parseData_ok.
Qed.

Lemma exists_reread (r : object) : exists_ (reread r) = exists_ r.
Proof.
  unfold reread, exists_ at 1. rewrite get_set_same. reflexivity.
Qed.

Lemma omit_reread (r : object) :
  omit "exists" (reread r) = norm (omit "exists" r).
Proof.
  unfold reread. rewrite omit_set. apply omit_notin.
  intros H. apply keys_norm in H. exact (omit_keys _ _ H).
Qed.

Lemma omit_plain (k : string) (o : object) : plain o -> plain (omit k o).
Proof. intros [Hn Hd]. split; [now apply omit_NoDup | now apply omit_defined]. Qed.

Lemma live_app (a b : list object) : live (a ++ b) = live a ++ live b.
Proof. unfold live. now rewrite filter_app, map_app. Qed.

(** rewriting the log does not change what [load] returns *)
Lemma live_reread (rs : list object) :
  Forall plain rs -> live (map reread rs) = live rs.
Proof.
  induction 1 as [|r rs Hr Hrs IH]; [reflexivity|].
  change (r :: rs) with ([r] ++ rs). rewrite map_app, !live_app, IH. f_equal.
  unfold live. simpl. rewrite exists_reread.
  destruct (exists_ r); simpl; [|reflexivity].
  rewrite omit_reread, norm_plain; [reflexivity | now apply omit_plain].
Qed.

(** ** [flush] *)

Lemma flushData_lines (all inserts deletes : list object) :
  flushData all inserts deletes = lines (rewritten all inserts deletes).
Proof. unfold flushData. now rewrite fold_lines. Qed.

(** a [flush] that completes found the lock fulfilled and the file readable,
    and leaves the rewritten records in the file *)
Lemma flush_Ok (inserts deletes : list object) (st st' : state) :
  flush inserts deletes st = (Ok tt, st') ->
  exists all,
    lock st = None /\ loadAll st = Ok all /\ lock st' = None
    /\ file st' = Some (flushData all inserts deletes)
    /\ loadAll st' = Ok (map reread (rewritten all inserts deletes)).
Proof.
  unfold flush. destruct (lock st) eqn:L; [intros [=]|].
  destruct (loadAll st) as [all|] eqn:E; [|intros [=]].
  intros H. injection H as <-. exists all. repeat split.
  unfold loadAll, readFile. simpl. rewrite flushData_lines. apply parseData_lines.
Qed.

Lemma flush_succeeds (inserts deletes all : list object) (st : state) :
  lock st = None -> loadAll st = Ok all ->
  flush inserts deletes st
  = (Ok tt, {| file := Some (flushData all inserts deletes); lock := None |}).
Proof. unfold flush. now intros -> ->. Qed.

Lemma mark_nil (e : object) : mark [] e = e.
Proof. reflexivity. Qed.

Lemma map_mark_nil (all : list object) : map (mark []) all = all.
Proof. induction all; simpl; [reflexivity|]. now rewrite IHall. Qed.

Lemma set_plain (k : string) (v : value) (o : object) :
  is_defined v -> plain o -> plain (set k v o).
Proof. intros Hv [Hn Hd]. split; [now apply set_NoDup | now apply set_defined]. Qed.

Lemma mark_plain (deletes : list object) (e : object) : plain e -> plain (mark deletes e).
Proof.
  unfold mark. destruct (includes _ _); [|auto].
  apply set_plain. discriminate.
Qed.

Lemma rewritten_plain (all inserts deletes : list object) :
  Forall plain all -> Forall plain inserts ->
  Forall plain (rewritten all inserts deletes).
Proof.
  intros Ha Hi. unfold rewritten. apply Forall_app. split.
  - apply Forall_map. eapply Forall_impl; [|exact Ha]. intros. now apply mark_plain.
  - apply Forall_map. eapply Forall_impl; [|exact Hi]. intros. apply set_plain; [discriminate|auto].
Qed.

Lemma record_ok_plain (all : list object) : Forall record_ok all -> Forall plain all.
Proof. apply Forall_impl. now intros r [H _]. Qed.

(** ** The public operations *)

Lemma value_eqb_eq (a b : value) : value_eqb a b = true <-> a = b.
Proof.
  destruct a, b; simpl; split; intros H; try discriminate; try reflexivity.
  - apply Bool.eqb_prop in H. now subst.
  - injection H as ->. apply Bool.eqb_reflx.
  - apply Z.eqb_eq in H. now subst.
  - injection H as ->. apply Z.eqb_refl.
  - apply String.eqb_eq in H. now subst.
  - injection H as ->. apply String.eqb_refl.
Qed.

Lemma value_eqb_refl (a : value) : value_eqb a a = true.
Proof. now apply value_eqb_eq. Qed.

Lemma includes_In (xs : list value) (v : value) :
  includes xs v = true <-> In v xs.
Proof.
  unfold includes. rewrite existsb_exists. split.
  - intros (x & Hx & E). apply value_eqb_eq in E. now subst.
  - intros H. exists v. split; [exact H | apply value_eqb_refl].
Qed.

Section Facade.

Variable fts : list string.

Lemma filter_by_id (v : value) (entities : list object) :
  Database.filter fts (by_id v) entities
  = Ok (List.filter (fun entity => strict_eq (get "_id" entity) v) entities).
Proof. reflexivity. Qed.

Lemma find_no_options (q : Query) (st : state) :
  Database.find fts q no_options st
  = (entities <- load st ;; Database.filter fts q entities).
Proof.
  unfold Database.find. destruct (load st) as [ents|]; simpl; [|reflexivity].
  destruct (Database.filter fts q ents); reflexivity.
Qed.

Lemma load_after_flush (inserts deletes : list object) (st st' : state) :
  Forall plain inserts ->
  flush inserts deletes st = (Ok tt, st') ->
  exists all,
    loadAll st = Ok all
    /\ load st' = Ok (live (rewritten all inserts deletes)).
Proof.
  intros Hi H. apply flush_Ok in H.
  destruct H as (all & _ & Hall & _ & _ & Hall').
  exists all. split; [exact Hall|].
  unfold load. rewrite Hall'. simpl. f_equal. apply live_reread.
  apply rewritten_plain; [|exact Hi].
  apply record_ok_plain. eapply loadAll_ok. exact Hall.
Qed.

Lemma live_get (k : string) (all : list object) (entity : object) :
  k <> "exists" -> In entity (live all) ->
  exists r, In r all /\ exists_ r = true /\ entity = omit "exists" r
            /\ get k entity = get k r.
Proof.
  intros Hk H. unfold live in H. apply in_map_iff in H.
  destruct H as (r & <- & H). apply filter_In in H. destruct H as [H1 H2].
  exists r. repeat split; try assumption. now apply get_omit_other.
Qed.

(** a [delete] that completes marks, in place, the records whose identifier
    is the one of a matched entity *)
Lemma delete_Ok (q : Query) (st st' : state) :
  Database.delete fts q st = (Ok tt, st') ->
  exists all matched,
    loadAll st = Ok all
    /\ Database.filter fts q (live all) = Ok matched
    /\ flush [] matched st = (Ok tt, st')
    /\ loadAll st' = Ok (map reread (map (mark matched) all))
    /\ load st' = Ok (live (map (mark matched) all)).
Proof.
  unfold Database.delete, load.
  destruct (loadAll st) as [all|] eqn:Hall; simpl; [|intros [=]].
  destruct (Database.filter fts q (live all)) as [matched|] eqn:Hm; [|intros [=]].
  intros H. exists all, matched. repeat split; try assumption.
  - apply flush_Ok in H. destruct H as (all0 & _ & E & _ & _ & H).
    rewrite Hall in E. injection E as <-.
    unfold rewritten in H. simpl in H. now rewrite List.app_nil_r in H.
  - pose proof H as H'. apply load_after_flush in H; [|constructor].
    destruct H as (all0 & E & H). rewrite Hall in E. injection E as <-.
    unfold rewritten in H. simpl in H. now rewrite List.app_nil_r in H.
Qed.

End Facade.

(** ** Insert, find and delete (C1, C2) *)

Lemma filter_none {A : Type} (f : A -> bool) (l : list A) :
  (forall x, In x l -> f x = false) -> List.filter f l = [].
Proof.
  induction l as [|x l IH]; simpl; intros H; [reflexivity|].
  rewrite (H x) by now left. apply IH. intros y Hy. apply H. now right.
Qed.

(** C1, as amended: for every entity [e] of JSON data that has no field
    named [exists], inserted into a store whose log holds no record with
    the identifier of [e], after [insert(e)] completes
    [find({_id: {$eq: e._id}})] returns exactly [[e]]. *)
Theorem insert_find (fts : list string) (st st' : state) (all : list object)
  (e : object) :
  storable e ->
  loadAll st = Ok all ->
  (forall r, In r all -> strict_eq (get "_id" r) (get "_id" e) = false) ->
  insert e st = (Ok tt, st') ->
  find fts (by_id (get "_id" e)) no_options st' = Ok [e].
Proof.
  intros [He Hx] Hall Hfresh Hins.
  rewrite find_no_options.
  apply load_after_flush in Hins; [|constructor; [exact He|constructor]].
  destruct Hins as (all0 & E & Hload). rewrite Hall in E. injection E as <-.
  rewrite Hload. simpl bind. rewrite filter_by_id. f_equal.
  unfold rewritten. rewrite map_mark_nil, live_app, filter_app.
  rewrite filter_none.
  - simpl. unfold live. simpl. unfold exists_. rewrite get_set_same. simpl.
    rewrite omit_set, omit_notin by exact Hx.
    unfold strict_eq. now rewrite value_eqb_refl.
  - intros entity Hin. apply live_get with (k := "_id") in Hin; [|discriminate].
    destruct Hin as (r & Hr & _ & _ & ->). exact (Hfresh r Hr).
Qed.

Lemma insert_find_witness :
  storable ann
  /\ loadAll (store_of [bob]) = Ok [set "exists" (VBool true) bob]
  /\ (forall r, In r [set "exists" (VBool true) bob] ->
                strict_eq (get "_id" r) (get "_id" ann) = false)
  /\ insert ann (store_of [bob]) = (Ok tt, store_of [bob; ann])
  /\ find ["name"] (by_id (get "_id" ann)) no_options (store_of [bob; ann])
     = Ok [ann].
Proof.
  assert (S : storable ann).
  { split; [split|].
    - repeat constructor; simpl; intuition discriminate.
    - repeat constructor; discriminate.
    - simpl; intuition discriminate. }
  assert (L : loadAll (store_of [bob]) = Ok [set "exists" (VBool true) bob])
    by (vm_compute; reflexivity).
  assert (F : forall r, In r [set "exists" (VBool true) bob] ->
                        strict_eq (get "_id" r) (get "_id" ann) = false).
  { intros r [<-|[]]. vm_compute. reflexivity. }
  assert (I : insert ann (store_of [bob]) = (Ok tt, store_of [bob; ann]))
    by (vm_compute; reflexivity).
  exact (conj S (conj L (conj F (conj I
           (insert_find ["name"] _ _ _ ann S L F I))))).
Defined.

(** C1, as stated, fails: [toLine] drops the field [exists] of an entity,
    so [find] returns the entity without it. *)
Lemma insert_find_exists_field :
  loadAll empty_store = Ok []
  /\ fst (insert flagged empty_store) = Ok tt
  /\ find ["name"] (by_id (get "_id" flagged)) no_options
       (snd (insert flagged empty_store))
     = Ok [[("_id", VNum 7); ("name", VStr "Ann Lee")]]
  /\ find ["name"] (by_id (get "_id" flagged)) no_options
       (snd (insert flagged empty_store))
     <> Ok [flagged].
Proof.
  repeat split; try (vm_compute; reflexivity).
  vm_compute. discriminate.
Qed.

Lemma marked_dead (matched : list object) (r : object) :
  exists_ (mark matched r) = true ->
  mark matched r = r /\ exists_ r = true
  /\ includes (map (get "_id") matched) (get "_id" r) = false.
Proof.
  unfold mark. destruct (includes _ _) eqn:E.
  - unfold exists_. rewrite get_set_same. discriminate.
  - auto.
Qed.

(** C2: for every entity [e], after [insert(e)] and then
    [delete({_id: {$eq: e._id}})] have completed,
    [find({_id: {$eq: e._id}})] returns the empty list. *)
Theorem insert_delete_find (fts : list string) (st st1 st2 : state) (e : object) :
  insert e st = (Ok tt, st1) ->
  delete fts (by_id (get "_id" e)) st1 = (Ok tt, st2) ->
  find fts (by_id (get "_id" e)) no_options st2 = Ok [].
Proof.
  intros _ Hdel. rewrite find_no_options.
  apply delete_Ok in Hdel.
  destruct Hdel as (all & matched & Hall & Hm & _ & _ & Hload).
  rewrite Hload. simpl bind. rewrite filter_by_id. f_equal.
  rewrite filter_by_id in Hm. injection Hm as <-.
  apply filter_none. intros entity Hin.
  destruct (strict_eq (get "_id" entity) (get "_id" e)) eqn:Heq; [|reflexivity].
  exfalso.
  apply live_get with (k := "_id") in Hin; [|discriminate].
  destruct Hin as (r' & Hr' & Hex & -> & Hid).
  apply in_map_iff in Hr'. destruct Hr' as (r & <- & Hr).
  apply marked_dead in Hex. destruct Hex as (Em & Hex & Hinc).
  rewrite Em in *.
  assert (Hin : In (get "_id" r)
                   (map (get "_id")
                      (List.filter
                         (fun entity => strict_eq (get "_id" entity) (get "_id" e))
                         (live all)))).
  { apply in_map_iff. exists (omit "exists" r). split.
    - apply get_omit_other. discriminate.
    - apply filter_In. split; [|exact Heq].
      unfold live. apply in_map, filter_In. now split. }
  apply includes_In in Hin. rewrite Hin in Hinc. discriminate.
Qed.

Lemma insert_delete_find_witness :
  insert ann (store_of [bob]) = (Ok tt, store_of [bob; ann])
  /\ delete ["name"] (by_id (get "_id" ann)) (store_of [bob; ann])
     = (Ok tt, snd (delete ["name"] (by_id (get "_id" ann)) (store_of [bob; ann])))
  /\ find ["name"] (by_id (get "_id" ann)) no_options
       (snd (delete ["name"] (by_id (get "_id" ann)) (store_of [bob; ann])))
     = Ok [].
Proof.
  assert (I : insert ann (store_of [bob]) = (Ok tt, store_of [bob; ann]))
    by (vm_compute; reflexivity).
  assert (D : delete ["name"] (by_id (get "_id" ann)) (store_of [bob; ann])
     = (Ok tt, snd (delete ["name"] (by_id (get "_id" ann)) (store_of [bob; ann]))))
    by (vm_compute; reflexivity).
  exact (conj I (conj D (insert_delete_find ["name"] _ _ _ ann I D))).
Defined.

(** ** What [delete] writes (C4) *)

Lemma log_lines_flush (all inserts deletes : list object) :
  log_lines {| file := Some (flushData all inserts deletes); lock := None |}
  = map toLine (rewritten all inserts deletes).
Proof.
  unfold log_lines. simpl. rewrite flushData_lines, split_lines. simpl.
  apply nonempty_toLine.
Qed.

Lemma toLine_mark (matched : list object) (r : object) :
  toLine (mark matched r)
  = if includes (map (get "_id") matched) (get "_id" r)
    then String "D" (JSON.stringify (omit "exists" r))
    else toLine r.
Proof.
  unfold mark. destruct (includes _ _); [|reflexivity].
  unfold toLine, exists_. now rewrite get_set_same, omit_set.
Qed.

(** C4, as amended: [delete(query)] appends no line; it rewrites the
    file with one line per record of the old log, in the same order: the
    record re-encoded with the tag [D] when its identifier is the one of a
    live entity that matches the query, and re-encoded as it was
    otherwise. *)
Theorem delete_rewrites (fts : list string) (q : Query) (st st' : state)
  (all : list object) :
  loadAll st = Ok all ->
  delete fts q st = (Ok tt, st') ->
  exists matched,
    Database.filter fts q (live all) = Ok matched
    /\ log_lines st'
       = map (fun r =>
                if includes (map (get "_id") matched) (get "_id" r)
                then String "D" (JSON.stringify (omit "exists" r))
                else toLine r)
             all.
Proof.
  intros Hall Hdel. apply delete_Ok in Hdel.
  destruct Hdel as (all0 & matched & E & Hm & Hf & _ & _).
  rewrite Hall in E. injection E as <-.
  exists matched. split; [exact Hm|].
  apply flush_Ok in Hf. destruct Hf as (all0 & _ & E & L & F & _).
  rewrite Hall in E. injection E as <-.
  destruct st' as [f l]. simpl in L, F. subst.
  rewrite log_lines_flush. unfold rewritten. simpl. rewrite List.app_nil_r.
  rewrite map_map. apply map_ext. intros r. apply toLine_mark.
Qed.

Lemma delete_rewrites_witness :
  loadAll (store_of [ann; bob])
  = Ok [set "exists" (VBool true) ann; set "exists" (VBool true) bob]
  /\ delete ["name"] (by_id (VNum 1)) (store_of [ann; bob])
     = (Ok tt, snd (delete ["name"] (by_id (VNum 1)) (store_of [ann; bob])))
  /\ exists matched,
      Database.filter ["name"] (by_id (VNum 1))
        (live [set "exists" (VBool true) ann; set "exists" (VBool true) bob])
      = Ok matched
      /\ log_lines (snd (delete ["name"] (by_id (VNum 1)) (store_of [ann; bob])))
         = map (fun r =>
                  if includes (map (get "_id") matched) (get "_id" r)
                  then String "D" (JSON.stringify (omit "exists" r))
                  else toLine r)
               [set "exists" (VBool true) ann; set "exists" (VBool true) bob].
Proof.
  assert (L : loadAll (store_of [ann; bob])
              = Ok [set "exists" (VBool true) ann; set "exists" (VBool true) bob])
    by (vm_compute; reflexivity).
  assert (D : delete ["name"] (by_id (VNum 1)) (store_of [ann; bob])
     = (Ok tt, snd (delete ["name"] (by_id (VNum 1)) (store_of [ann; bob]))))
    by (vm_compute; reflexivity).
  exact (conj L (conj D (delete_rewrites ["name"] _ _ _ _ L D))).
Defined.

(** C4, as stated, fails: the line of the deleted record is rewritten
    with the tag [D], and the file gets no new line. *)
Lemma delete_appends_nothing :
  fst (delete ["name"] (by_id (VNum 1)) (store_of [ann; bob])) = Ok tt
  /\ log_lines (store_of [ann; bob])
     = [String "E" (JSON.stringify ann); String "E" (JSON.stringify bob)]
  /\ log_lines (snd (delete ["name"] (by_id (VNum 1)) (store_of [ann; bob])))
     = [String "D" (JSON.stringify ann); String "E" (JSON.stringify bob)]
  /\ ~ (exists appended,
          log_lines (snd (delete ["name"] (by_id (VNum 1)) (store_of [ann; bob])))
          = log_lines (store_of [ann; bob]) ++ appended).
Proof.
  repeat split; try (vm_compute; reflexivity).
  intros (appended & H). vm_compute in H. discriminate.
Qed.

(** ** The record codec (C5) *)

Lemma get_filter_defined (k : string) (o : object) :
  NoDup (keys o) -> get k (List.filter JSON.defined o) = get k o.
Proof.
  induction o as [|[k' v] o IH]; simpl; [reflexivity|].
  intros H. inversion H as [|? ? Hn Hd]; subst.
  unfold JSON.defined at 1. simpl.
  destruct (String.eqb k k') eqn:E.
  - apply String.eqb_eq in E. subst k'.
    destruct v; simpl; rewrite ?String.eqb_refl; try reflexivity.
    rewrite IH by exact Hd.
    clear - Hn. induction o as [|[k2 v2] o IH]; simpl in *; [reflexivity|].
    destruct (String.eqb k k2) eqn:E.
    + apply String.eqb_eq in E. subst. tauto.
    + apply IH. tauto.
  - destruct v; simpl; rewrite ?E; auto.
Qed.

Lemma filter_NoDup_keys (f : string * value -> bool) (o : object) :
  NoDup (keys o) -> NoDup (keys (List.filter f o)).
Proof.
  induction o as [|[k v] o IH]; simpl; [auto|].
  intros H. inversion H as [|? ? Hn Hd]; subst.
  destruct (f (k, v)); simpl; [|auto].
  constructor; [|auto].
  intros Hin. apply Hn. unfold keys in *.
  apply in_map_iff in Hin. destruct Hin as (x & Ex & Hx).
  apply filter_In in Hx. apply in_map_iff. exists x. tauto.
Qed.

Lemma get_norm (k : string) (o : object) :
  NoDup (keys o) -> get k (norm o) = get k o.
Proof.
  intros H. unfold norm.
  rewrite fold_assign_app by (simpl; now apply filter_NoDup_keys).
  simpl. now apply get_filter_defined.
Qed.







(** ** [queryMatches] and [$or] (C6) *)

Lemma queryMatches_fold (entity : object) (query : Query) (acc : bool) :
  fold_left
    (fun (acc : bool) (e : QueryEntry) =>
       if negb acc || startsWith (entry_key e) "$" then acc
       else match e with
            | Field field test => matches test (get field entity)
            | _ => false
            end)
    query acc
  = acc && forallb (entry_holds entity) query.
Proof.
  revert acc. induction query as [|e query IH]; intros acc; simpl.
  - now rewrite andb_true_r.
  - rewrite IH. unfold entry_holds at 2.
    destruct acc; simpl; [|reflexivity].
    destruct (startsWith (entry_key e) "$"); reflexivity.
Qed.

(** [queryMatches] is the conjunction of the tests of the entries *)
Lemma queryMatches_forallb (query : Query) (entity : object) :
  queryMatches query entity = forallb (entry_holds entity) query.
Proof. unfold queryMatches. now rewrite queryMatches_fold. Qed.

Lemma queryMatches_sub (sub : Queryable) (entity : object) :
  queryMatches (sub_query sub) entity = true <-> satisfies entity sub.
Proof.
  rewrite queryMatches_forallb, forallb_forall. unfold sub_query, satisfies. split.
  - intros H field test Hin Hs.
    specialize (H (Field field test)).
    unfold entry_holds in H. simpl in H. rewrite Hs in H. simpl in H.
    apply H. apply in_map_iff. exists (field, test). now split.
  - intros H e Hin. apply in_map_iff in Hin.
    destruct Hin as ([field test] & <- & Hin). unfold entry_holds. simpl.
    destruct (startsWith field "$") eqn:Hs; [reflexivity|]. simpl. eauto.
Qed.

(** C6: for a query that has [$or], an entity passes [filterOr] if and
    only if some sub-query of [$or] has every one of its field predicates
    satisfied by the entity. *)
Theorem filterOr_full_match (query : Query) (subs : list Queryable)
  (entities : list object) (entity : object) :
  q_or query = Some subs ->
  (In entity (filterOr query entities)
   <-> In entity entities /\ exists sub, In sub subs /\ satisfies entity sub).
Proof.
  intros Hq. unfold filterOr. rewrite Hq, filter_In.
  apply and_iff_compat_l. split.
  - destruct (List.find _ subs) as [sub|] eqn:E; [intros _|discriminate].
    apply find_some in E. exists sub. split; [tauto|].
    now apply queryMatches_sub.
  - intros (sub & Hin & Hs).
    destruct (List.find _ subs) as [sub'|] eqn:E; [reflexivity|].
    exfalso. apply (find_none _ _ E) in Hin.
    apply queryMatches_sub in Hs. simpl in Hin. rewrite Hs in Hin. discriminate.
Qed.

Lemma filterOr_full_match_witness :
  q_or [Or [both]] = Some [both]
  /\ (In a1b1 (filterOr [Or [both]] [a1b2; a1b1])
      <-> In a1b1 [a1b2; a1b1]
          /\ exists sub, In sub [both] /\ satisfies a1b1 sub).
Proof.
  exact (conj eq_refl
           (filterOr_full_match [Or [both]] [both] [a1b2; a1b1] a1b1 eq_refl)).
Defined.

(** one of the two predicates of a sub-query is not enough *)
Lemma filterOr_one_of_two :
  matches (Q_eq (VNum 1)) (get "a" a1b2) = true
  /\ filterOr [Or [both]] [a1b2; a1b1] = [a1b1].
Proof. split; reflexivity. Qed.

(** ** Queries made of operator keys (C10) *)

Lemma filter_empty_query (fts : list string) (entities : list object) :
  Database.filter fts [] entities = Ok entities.
Proof.
  unfold Database.filter, filterText, filterOr, filterAnd, filterParams.
  simpl. f_equal.
  induction entities as [|e es IH]; simpl; [reflexivity|]. now rewrite IH.
Qed.

Lemma exists_mark_all (all : list object) (r : object) :
  In r all -> exists_ (mark (live all) r) = false.
Proof.
  intros Hin. unfold mark.
  destruct (includes (map (get "_id") (live all)) (get "_id" r)) eqn:E.
  - unfold exists_. now rewrite get_set_same.
  - destruct (exists_ r) eqn:Hex; [|reflexivity]. exfalso.
    assert (H : In (get "_id" r) (map (get "_id") (live all))).
    { apply in_map_iff. exists (omit "exists" r). split.
      - apply get_omit_other. discriminate.
      - unfold live. apply in_map, filter_In. now split. }
    apply includes_In in H. rewrite H in E. discriminate.
Qed.

Lemma Forall2_map_in {A B : Type} (P : A -> B -> Prop) (f : A -> B)
  (l : list A) :
  (forall x, In x l -> P x (f x)) -> Forall2 P l (map f l).
Proof.
  induction l as [|x l IH]; intros H; simpl; constructor.
  - apply H. now left.
  - apply IH. intros y Hy. apply H. now right.
Qed.

(** C10: [queryMatches] accepts, for every entity, a query all of whose
    keys start with [$], the empty query included; so [find({})] returns
    every live entity, and [delete({})] rewrites the log with the same
    records in the same order, each with the content it had and none of
    them live: every line of the file is the record's content with the
    tag [D]. *)
Theorem operator_keys_accepted (fts : list string) :
  (forall (query : Query) (entity : object),
      (forall e, In e query -> startsWith (entry_key e) "$" = true) ->
      queryMatches query entity = true)
  /\ (forall (st : state) (entities : list object),
         load st = Ok entities -> find fts [] no_options st = Ok entities)
  /\ (forall (st st' : state),
         delete fts [] st = (Ok tt, st') ->
         load st' = Ok []
         /\ exists all all',
              loadAll st = Ok all
              /\ loadAll st' = Ok all'
              /\ Forall2 (fun r r' => omit "exists" r' = omit "exists" r
                                      /\ exists_ r' = false)
                         all all'
              /\ log_lines st'
                 = map (fun r => String "D" (JSON.stringify (omit "exists" r)))
                       all).
Proof.
  split; [|split].
  - intros query entity H. rewrite queryMatches_forallb. apply forallb_forall.
    intros e He. unfold entry_holds. now rewrite (H e He).
  - intros st entities H. rewrite find_no_options, H. simpl.
    apply filter_empty_query.
  - intros st st' H. apply delete_Ok in H.
    destruct H as (all & matched & Hall & Hm & Hf & Hall' & Hload).
    rewrite filter_empty_query in Hm. injection Hm as <-.
    assert (P : Forall plain all)
      by (apply record_ok_plain; eapply loadAll_ok; exact Hall).
    assert (D : Forall (fun r => exists_ r = false) (map (mark (live all)) all)).
    { apply Forall_forall. intros r' Hr'. apply in_map_iff in Hr'.
      destruct Hr' as (r & <- & Hr). now apply exists_mark_all. }
    assert (O : forall r, omit "exists" (mark (live all) r) = omit "exists" r).
    { intros r. unfold mark. destruct (includes _ _); [apply omit_set|reflexivity]. }
    split.
    + rewrite Hload. f_equal. unfold live. rewrite filter_none; [reflexivity|].
      rewrite Forall_forall in D. exact D.
    + exists all, (map reread (map (mark (live all)) all)).
      split; [exact Hall|]. split; [exact Hall'|]. split.
      * rewrite map_map. apply Forall2_map_in. intros r Hr. split.
        -- rewrite omit_reread, O. apply norm_plain, omit_plain.
           rewrite Forall_forall in P. now apply P.
        -- rewrite exists_reread. now apply exists_mark_all.
      * apply flush_Ok in Hf. destruct Hf as (all0 & _ & E & L & F & _).
        rewrite Hall in E. injection E as <-.
        destruct st' as [f l]. simpl in L, F. subst.
        rewrite log_lines_flush. unfold rewritten. simpl.
        rewrite List.app_nil_r, map_map. apply map_ext_in. intros r Hr.
        unfold toLine. rewrite (exists_mark_all all r Hr). now rewrite O.
Qed.

Lemma operator_keys_accepted_witness :
  (forall e, In e [Text "lee"; Or [both]] -> startsWith (entry_key e) "$" = true)
  /\ queryMatches [Text "lee"; Or [both]] ann = true
  /\ load (store_of [ann; bob]) = Ok [ann; bob]
  /\ find ["name"] [] no_options (store_of [ann; bob]) = Ok [ann; bob]
  /\ delete ["name"] [] (store_of [ann; bob])
     = (Ok tt, snd (delete ["name"] [] (store_of [ann; bob])))
  /\ load (snd (delete ["name"] [] (store_of [ann; bob]))) = Ok []
  /\ exists all all',
      loadAll (store_of [ann; bob]) = Ok all
      /\ loadAll (snd (delete ["name"] [] (store_of [ann; bob]))) = Ok all'
      /\ Forall2 (fun r r' => omit "exists" r' = omit "exists" r
                              /\ exists_ r' = false)
                 all all'
      /\ log_lines (snd (delete ["name"] [] (store_of [ann; bob])))
         = map (fun r => String "D" (JSON.stringify (omit "exists" r))) all.
Proof.
  assert (K : forall e, In e [Text "lee"; Or [both]] ->
                        startsWith (entry_key e) "$" = true).
  { intros e [<-|[<-|[]]]; reflexivity. }
  assert (L : load (store_of [ann; bob]) = Ok [ann; bob])
    by (vm_compute; reflexivity).
  assert (D : delete ["name"] [] (store_of [ann; bob])
              = (Ok tt, snd (delete ["name"] [] (store_of [ann; bob]))))
    by (vm_compute; reflexivity).
  pose proof (operator_keys_accepted ["name"]) as (A & B & C).
  exact (conj K (conj (A _ ann K) (conj L (conj (B _ _ L)
           (conj D (C _ _ D)))))).
Defined.

(** ** Deleting nothing (C9) *)

Lemma flush_keeps_lock (inserts deletes : list object) (st : state) :
  (forall e, lock st = Some e -> loadAll st = Throw e) ->
  forall e, lock (snd (flush inserts deletes st)) = Some e ->
            loadAll (snd (flush inserts deletes st)) = Throw e.
Proof.
  intros H e. unfold flush.
  destruct (lock st) as [e0|] eqn:L; simpl.
  - rewrite L. apply H.
  - destruct (loadAll st) as [all|e1] eqn:E; simpl; [discriminate|].
    intros [= <-]. exact E.
Qed.

(** a rejected lock means that the file cannot be read *)
Lemma reachable_lock (fts : list string) (st : state) :
  reachable fts st ->
  forall e, lock st = Some e -> loadAll st = Throw e.
Proof.
  induction 1 as [f|st e0 Hr IH|st q Hr IH].
  - discriminate.
  - now apply flush_keeps_lock.
  - unfold delete. destruct (load st) as [ents|]; simpl; [|exact IH].
    destruct (Database.filter fts q ents); simpl; [|exact IH].
    now apply flush_keeps_lock.
Qed.

(** C9: in every state that the database reaches, when the query matches
    no live entity, [delete(query)] does not throw, and every [find]
    returns afterwards what it returned before. *)
Theorem delete_nothing (fts : list string) (st : state) (q : Query)
  (entities : list object) :
  reachable fts st ->
  load st = Ok entities ->
  Database.filter fts q entities = Ok [] ->
  exists st',
    delete fts q st = (Ok tt, st')
    /\ forall q' opts, find fts q' opts st' = find fts q' opts st.
Proof.
  intros Hr Hload Hq.
  assert (Hall : exists all, loadAll st = Ok all /\ entities = live all).
  { unfold load in Hload. destruct (loadAll st) as [all|]; [|discriminate].
    injection Hload as <-. eauto. }
  destruct Hall as (all & Hall & ->).
  assert (Hlock : lock st = None).
  { destruct (lock st) as [e|] eqn:L; [|reflexivity].
    rewrite (reachable_lock fts st Hr e L) in Hall. discriminate. }
  eexists. split.
  - unfold delete. rewrite Hload, Hq. now apply flush_succeeds with (all := all).
  - intros q' opts. unfold find.
    replace (load {| file := Some (flushData all [] []); lock := None |})
      with (load st); [reflexivity|].
    rewrite Hload. unfold load, loadAll, readFile. simpl.
    rewrite flushData_lines, parseData_lines. simpl. f_equal.
    unfold rewritten. simpl. rewrite List.app_nil_r, map_mark_nil.
    symmetry. apply live_reread, record_ok_plain. eapply loadAll_ok. exact Hall.
Qed.

Lemma delete_nothing_witness :
  reachable ["name"] (store_of [ann; bob])
  /\ load (store_of [ann; bob]) = Ok [ann; bob]
  /\ Database.filter ["name"] (by_id (VNum 5)) [ann; bob] = Ok []
  /\ exists st',
      delete ["name"] (by_id (VNum 5)) (store_of [ann; bob]) = (Ok tt, st')
      /\ forall q' opts,
          find ["name"] q' opts st' = find ["name"] q' opts (store_of [ann; bob]).
Proof.
  assert (R : reachable ["name"] (store_of [ann; bob])).
  { change (store_of [ann; bob])
      with (snd (insert bob (snd (insert ann empty_store)))).
    do 2 apply reach_insert. apply reach_new. }
  assert (L : load (store_of [ann; bob]) = Ok [ann; bob])
    by (vm_compute; reflexivity).
  assert (F : Database.filter ["name"] (by_id (VNum 5)) [ann; bob] = Ok [])
    by reflexivity.
  exact (conj R (conj L (conj F (delete_nothing _ _ _ _ R L F)))).
Defined.

(** ** Sorting (C8) *)

Lemma string_ltb_irrefl (s : string) : String.ltb s s = false.
Proof.
  unfold String.ltb. pose proof (String.compare_antisym s s) as H.
  destruct (String.compare s s); simpl in *; congruence.
Qed.

Lemma string_ltb_asym (s t : string) : String.ltb s t = true -> String.ltb t s = false.
Proof.
  unfold String.ltb. rewrite (String.compare_antisym t s).
  destruct (String.compare s t); simpl; congruence.
Qed.

Lemma js_lt_irrefl (x : value) : js_lt x x = false.
Proof.
  destruct x; simpl; try reflexivity.
  - apply Z.ltb_irrefl.
  - apply Z.ltb_irrefl.
  - apply string_ltb_irrefl.
Qed.

Lemma js_lt_asym (x y : value) : js_lt x y = true -> js_lt y x = false.
Proof.
  unfold js_lt.
  destruct x, y; simpl; try discriminate; try reflexivity;
    try (intros H; apply Z.ltb_lt in H; apply Z.ltb_ge; lia);
    try apply string_ltb_asym.
  all: destruct b; try destruct b0; simpl; intros H; try discriminate; try reflexivity;
    try (apply Z.ltb_lt in H; apply Z.ltb_ge; lia).
Qed.

Lemma js_lt_neq (x y : value) : js_lt x y = true -> strict_eq x y = false.
Proof.
  intros H. unfold strict_eq. destruct (value_eqb x y) eqn:E; [|reflexivity].
  apply value_eqb_eq in E. subst. now rewrite js_lt_irrefl in H.
Qed.

Lemma js_gt_neq (x y : value) : js_gt x y = true -> strict_eq x y = false.
Proof.
  intros H. unfold strict_eq. destruct (value_eqb x y) eqn:E; [|reflexivity].
  apply value_eqb_eq in E. subst. unfold js_gt in H. now rewrite js_lt_irrefl in H.
Qed.

Lemma equal_tied (x : value) : tied x x.
Proof.
  repeat split; [now destruct x | |]; unfold js_gt; apply js_lt_irrefl.
Qed.

(** once a field has decided, the later ones are skipped *)
Lemma compare_decided (a b : object) (s : QuerySort) (acc : Z) :
  acc <> 0%Z -> fold_left (compare_step a b) s acc = acc.
Proof.
  intros H. induction s as [|fd s IH]; simpl; [reflexivity|].
  unfold compare_step at 2. apply Z.eqb_neq in H. rewrite H. simpl. exact IH.
Qed.

(** tied fields leave the comparison to the next one *)
Lemma compare_tied (a b : object) (pre s : QuerySort) :
  (forall g dg, In (g, dg) pre -> tied (get g a) (get g b)) ->
  fold_left (compare_step a b) (pre ++ s) 0%Z = fold_left (compare_step a b) s 0%Z.
Proof.
  induction pre as [|[g dg] pre IH]; intros H; simpl; [reflexivity|].
  destruct (H g dg (or_introl eq_refl)) as (_ & Hg & Hl).
  unfold compare_step at 2. simpl. rewrite Hg, Hl.
  destruct (strict_eq (get g a) (get g b));
    apply IH; intros g' dg' Hin; apply (H g' dg'); now right.
Qed.

(** C8, as amended: the comparator goes through the fields in the order
    of the sort mapping; the first field on which one value is greater or
    less than the other decides, by its direction; fields whose values are
    equal, or differ without being ordered by [>] or [<], are ties and
    defer to the next field; a positive result puts the second entity
    first.  Entities [{_id:1, a:1, b:2}] and
    [{_id:2, a:1, b:1}] sorted by [{a: 1, b: -1}] come out as
    [id 1, id 2]. *)
Theorem sort_tie_break :
  (forall (pre post : QuerySort) (field : string) (dir : Z) (a b : object),
      (forall g dg, In (g, dg) pre -> tied (get g a) (get g b)) ->
      dir = 1%Z \/ dir = (-1)%Z ->
      (js_gt (get field a) (get field b) = true ->
       compareBy (pre ++ (field, dir) :: post) a b = dir)
      /\ (js_lt (get field a) (get field b) = true ->
          compareBy (pre ++ (field, dir) :: post) a b = (- dir)%Z))
  /\ (forall (s : QuerySort) (a b : object),
         Database.sort (Some s) [a; b]
         = if (compareBy s a b >? 0)%Z then [b; a] else [a; b])
  /\ (forall fts,
         find fts [] by_a_then_b_desc (store_of [a1b2; a1b1]) = Ok [a1b2; a1b1]
         /\ find fts [] by_a_then_b_desc (store_of [a1b1; a1b2]) = Ok [a1b2; a1b1]).
Proof.
  split; [|split; [reflexivity|]].
  - intros pre post field dir a b Hpre Hdir.
    assert (Hd : dir <> 0%Z /\ (- dir)%Z <> 0%Z) by lia.
    change (compareBy (pre ++ (field, dir) :: post) a b)
      with (fold_left (compare_step a b) (pre ++ (field, dir) :: post) 0%Z).
    rewrite compare_tied by exact Hpre. cbn [fold_left].
    split; intros H.
    + assert (S : compare_step a b 0%Z (field, dir) = dir).
      { unfold compare_step. cbn [fst snd]. now rewrite (js_gt_neq _ _ H), H. }
      rewrite S. now apply compare_decided.
    + assert (S : compare_step a b 0%Z (field, dir) = (- dir)%Z).
      { unfold compare_step. cbn [fst snd].
        rewrite (js_lt_neq _ _ H). unfold js_gt. now rewrite (js_lt_asym _ _ H), H. }
      rewrite S. now apply compare_decided.
  - intros fts. split; vm_compute; reflexivity.
Qed.

Lemma sort_tie_break_witness :
  (forall g dg, In (g, dg) [("a", 1%Z)] -> tied (get g a1b2) (get g a1b1))
  /\ js_gt (get "b" a1b2) (get "b" a1b1) = true
  /\ compareBy ([("a", 1%Z)] ++ ("b", (-1)%Z) :: []) a1b2 a1b1 = (-1)%Z.
Proof.
  assert (T : forall g dg, In (g, dg) [("a", 1%Z)] -> tied (get g a1b2) (get g a1b1)).
  { intros g dg [[= <- <-]|[]]. repeat split. }
  assert (G : js_gt (get "b" a1b2) (get "b" a1b1) = true) by reflexivity.
  exact (conj T (conj G
           (proj1 (proj1 sort_tie_break [("a", 1%Z)] [] "b" (-1)%Z a1b2 a1b1 T
                     (or_intror eq_refl)) G))).
Defined.

(** C8, as stated, fails: the values of [a] differ (one entity has no
    field [a]), yet [a] is a tie and [b] decides the order. *)
Lemma sort_differing_field_skipped :
  strict_eq (get "a" no_a_b1) (get "a" a5_b2) = false
  /\ get "a" no_a_b3 = get "a" no_a_b1
  /\ compareBy [("a", 1%Z); ("b", 1%Z)] no_a_b1 a5_b2 = (-1)%Z
  /\ compareBy [("a", 1%Z); ("b", 1%Z)] no_a_b3 a5_b2 = 1%Z
  /\ Database.sort (Some [("a", 1%Z); ("b", 1%Z)]) [a5_b2; no_a_b1]
     = [no_a_b1; a5_b2]
  /\ Database.sort (Some [("a", 1%Z); ("b", 1%Z)]) [no_a_b3; a5_b2]
     = [a5_b2; no_a_b3].
Proof. repeat split. Qed.

(** ** Text search (C7) *)

Lemma compile_literal_char (c : ascii) (tail : string) :
  RegExp.is_syntax_char c = false ->
  RegExp.compile (String c tail)
  = option_map (cons (RegExp.Char c)) (RegExp.compile tail).
Proof.
  destruct c as [[] [] [] [] [] [] [] []]; intros H; try discriminate H; reflexivity.
Qed.

Lemma compile_word (w tail : string) :
  literal w = true ->
  RegExp.compile (w ++ tail)
  = option_map (app (chars w)) (RegExp.compile tail).
Proof.
  induction w as [|c w IH]; cbn [append literal chars]; intros H.
  - now destruct (RegExp.compile tail).
  - apply andb_true_iff in H. destruct H as [Hc Hw].
    apply negb_true_iff in Hc.
    rewrite compile_literal_char by exact Hc. rewrite IH by exact Hw.
    now destruct (RegExp.compile tail).
Qed.

(** the pattern built by [filterText] for a word without syntax character *)
Lemma compile_bounded (w : string) :
  literal w = true ->
  RegExp.compile (String bslash "b" ++ w ++ String bslash "b")
  = Some (RegExp.WordBoundary :: chars w ++ [RegExp.WordBoundary]).
Proof.
  intros H. cbn [append].
  change (RegExp.compile (String bslash (String "b" (w ++ String bslash "b"))))
    with (option_map (cons RegExp.WordBoundary)
            (RegExp.compile (w ++ String bslash "b"))).
  rewrite compile_word by exact H. reflexivity.
Qed.

Lemma match_chars (w : string) :
  forall (rest : list RegExp.atom) (prev : option ascii) (s : string),
    RegExp.match_here (chars w ++ rest) prev s = true
    <-> exists post, s = (w ++ post)%string
                     /\ RegExp.match_here rest (last_char prev w) post = true.
Proof.
  induction w as [|c w IH]; intros rest prev s; simpl.
  - split; [eauto | now intros (post & -> & H)].
  - destruct s as [|d s'].
    + split; [discriminate | now intros (post & [=] & _)].
    + rewrite andb_true_iff, IH. split.
      * intros (Hc & post & -> & H). apply Ascii.eqb_eq in Hc. subst.
        exists post. now split.
      * intros (post & [= -> ->] & H). split; [apply Ascii.eqb_refl|eauto].
Qed.

(** [search] finds a match if and only if the atoms match at some position *)
Lemma search_spec (atoms : list RegExp.atom) :
  forall (s : string) (prev : option ascii),
    RegExp.search atoms prev s = true
    <-> exists pre rest, s = (pre ++ rest)%string
                         /\ RegExp.match_here atoms (last_char prev pre) rest = true.
Proof.
  induction s as [|d s IH]; intros prev; simpl.
  - rewrite orb_false_r. split.
    + intros H. exists EmptyString, EmptyString. now split.
    + intros (pre & rest & E & H). destruct pre; [|discriminate].
      simpl in *. now subst.
  - rewrite orb_true_iff, IH. split.
    + intros [H|(pre & rest & -> & H)].
      * exists EmptyString, (String d s). now split.
      * exists (String d pre), rest. now split.
    + intros (pre & rest & E & H). destruct pre as [|c pre]; simpl in *.
      * left. now subst.
      * injection E as -> ->. right. eauto.
Qed.

Lemma last_char_nonempty (w : string) (prev : option ascii) :
  w <> EmptyString -> last_char prev w = last_char None w.
Proof. destruct w; [now intros H; elim H | reflexivity]. Qed.

Lemma first_nonempty (w post : string) :
  w <> EmptyString -> RegExp.first (w ++ post) = RegExp.first w.
Proof. destruct w; [now intros H; elim H | reflexivity]. Qed.

Lemma plain_word_parts (w : string) :
  plain_word w = true ->
  w <> EmptyString /\ literal w = true
  /\ RegExp.is_word_at (RegExp.first w) = true
  /\ RegExp.is_word_at (last_char None w) = true.
Proof.
  unfold plain_word. intros H.
  apply andb_true_iff in H. destruct H as [H Hl].
  apply andb_true_iff in H. destruct H as [Hw Hf].
  repeat split; try assumption.
  intros ->. discriminate Hf.
Qed.

(** for a plain word the pattern tests for the word as a whole word *)
Lemma test_whole_word (w s : string) :
  plain_word w = true ->
  exists found,
    RegExp.test (String bslash "b" ++ w ++ String bslash "b") s = Some found
    /\ (found = true <-> whole_word w s).
Proof.
  intros Hp. apply plain_word_parts in Hp. destruct Hp as (Hne & Hw & Hf & Hl).
  unfold RegExp.test. rewrite compile_bounded by exact Hw.
  eexists. split; [reflexivity|].
  rewrite search_spec. unfold whole_word. split.
  - intros (pre & rest & -> & H). simpl in H.
    apply andb_true_iff in H. destruct H as [Hb H].
    apply match_chars in H. destruct H as (post & -> & H).
    simpl in H. rewrite andb_true_r in H.
    rewrite first_nonempty, Hf in Hb by exact Hne.
    rewrite last_char_nonempty, Hl in H by exact Hne.
    exists pre, post. repeat split.
    + now destruct (RegExp.is_word_at (last_char None pre)).
    + now destruct (RegExp.is_word_at (RegExp.first post)).
  - intros (pre & post & -> & Hpre & Hpost).
    exists pre, (w ++ post)%string. split; [reflexivity|].
    simpl. rewrite Hpre, first_nonempty, Hf by exact Hne. simpl.
    apply match_chars. exists post. split; [reflexivity|].
    simpl. rewrite last_char_nonempty, Hl, Hpost by exact Hne. reflexivity.
Qed.

Lemma someM_spec {A : Type} (p : A -> result bool) (P : A -> Prop) (xs : list A) :
  (forall x, In x xs -> exists b, p x = Ok b /\ (b = true <-> P x)) ->
  exists b, someM p xs = Ok b /\ (b = true <-> exists x, In x xs /\ P x).
Proof.
  induction xs as [|x xs IH]; intros H; simpl.
  - exists false. split; [reflexivity|]. split; [discriminate | now intros (x & [] & _)].
  - destruct (H x (or_introl eq_refl)) as (b & -> & Hb). simpl.
    destruct b.
    + exists true. split; [reflexivity|]. split; [|reflexivity].
      intros _. exists x. split; [now left | now apply Hb].
    + destruct IH as (b' & -> & Hb'); [intros y Hy; apply H; now right|].
      exists b'. split; [reflexivity|]. rewrite Hb'. split.
      * intros (y & Hy & Py). exists y. split; [now right | exact Py].
      * intros (y & [<-|Hy] & Py); [|eauto].
        apply Hb in Py. discriminate.
Qed.

Lemma everyM_spec {A : Type} (p : A -> result bool) (P : A -> Prop) (xs : list A) :
  (forall x, In x xs -> exists b, p x = Ok b /\ (b = true <-> P x)) ->
  exists b, everyM p xs = Ok b /\ (b = true <-> forall x, In x xs -> P x).
Proof.
  induction xs as [|x xs IH]; intros H; simpl.
  - exists true. split; [reflexivity|]. split; [now intros _ x [] | reflexivity].
  - destruct (H x (or_introl eq_refl)) as (b & -> & Hb). simpl.
    destruct b.
    + destruct IH as (b' & -> & Hb'); [intros y Hy; apply H; now right|].
      exists b'. split; [reflexivity|]. rewrite Hb'. split.
      * intros Hall y [<-|Hy]; [now apply Hb | now apply Hall].
      * intros Hall y Hy. apply Hall. now right.
    + exists false. split; [reflexivity|]. split; [discriminate|].
      intros Hall. apply Hb, Hall. now left.
Qed.

Lemma filterM_spec {A : Type} (p : A -> result bool) (P : A -> Prop) (xs : list A) :
  (forall x, In x xs -> exists b, p x = Ok b /\ (b = true <-> P x)) ->
  exists ys, filterM p xs = Ok ys /\ forall y, In y ys <-> In y xs /\ P y.
Proof.
  induction xs as [|x xs IH]; intros H; simpl.
  - exists []. split; [reflexivity|]. intros y. simpl. tauto.
  - destruct (H x (or_introl eq_refl)) as (b & -> & Hb). simpl.
    destruct IH as (ys & -> & Hys); [intros y Hy; apply H; now right|]. simpl.
    eexists. split; [reflexivity|]. intros y.
    destruct b; simpl; rewrite Hys.
    + split.
      * intros [<-|[Hy Py]]; [split; [now left | now apply Hb] | tauto].
      * intros [[<-|Hy] Py]; tauto.
    + split; [tauto|]. intros [[<-|Hy] Py]; [|tauto].
      apply Hb in Py. discriminate.
Qed.

(** C7, as amended: for a [$text] whose space-separated words hold no
    syntax character of regular expressions and begin and end with a
    letter, a digit or an underscore, and entities whose full-text-search
    fields hold strings, an entity passes [filterText] if and only if, for
    every word, some full-text-search field contains the word,
    case-insensitively, with no letter, digit or underscore next to it;
    the field ["a cat sat"] matches [$text: "cat"] and not
    [$text: "ca"]. *)
Theorem text_whole_words :
  (forall (fts : list string) (query : Query) (text : string)
          (entities : list object) (entity : object),
      q_text query = Some text ->
      text <> EmptyString ->
      (forall w, In w (split " " (toLowerCase text)) -> plain_word w = true) ->
      (forall e, In e entities -> text_fields fts e) ->
      exists found,
        filterText fts query entities = Ok found
        /\ (In entity found
            <-> In entity entities
                /\ forall w, In w (split " " (toLowerCase text)) ->
                             contains_word fts entity w))
  /\ filterText ["name"] [Text "cat"] [cat_sat] = Ok [cat_sat]
  /\ filterText ["name"] [Text "CAT"] [cat_sat] = Ok [cat_sat]
  /\ filterText ["name"] [Text "ca"] [cat_sat] = Ok [].
Proof.
  split; [|repeat split; reflexivity].
  intros fts query text entities entity Hq Hne Hw Hf.
  unfold filterText. rewrite Hq.
  apply String.eqb_neq in Hne. rewrite Hne.
  destruct (filterM_spec
              (textMatches fts (split " " (toLowerCase text)))
              (fun e => forall w, In w (split " " (toLowerCase text)) ->
                                  contains_word fts e w)
              entities) as (found & E & Hfound).
  - intros e He. unfold textMatches. apply everyM_spec.
    intros w Hin. pose proof (Hw w Hin) as Hword.
    destruct (someM_spec (fieldContains w e)
                (fun f => exists s, get f e = VStr s /\ whole_word w (toLowerCase s))
                fts) as (b & Eb & Hb).
    + intros f Hfin. destruct (Hf e He f Hfin) as (s & Hs).
      unfold fieldContains. rewrite Hs.
      destruct (test_whole_word w (toLowerCase s) Hword) as (fd & -> & Hfd).
      exists fd. split; [reflexivity|]. rewrite Hfd. split.
      * intros H. exists s. now split.
      * intros (s' & Es & H). now injection Es as <-.
    + exists b. split; [exact Eb|]. rewrite Hb. unfold contains_word. split.
      * intros (f & Hfin & s & Hs & H). exists f, s. tauto.
      * intros (f & s & Hfin & Hs & H). exists f. split; [exact Hfin|]. eauto.
  - exists found. split; [exact E|]. apply Hfound.
Qed.

Lemma text_whole_words_witness :
  q_text [Text "cat"] = Some "cat"
  /\ "cat" <> EmptyString
  /\ (forall w, In w (split " " (toLowerCase "cat")) -> plain_word w = true)
  /\ (forall e, In e [cat_sat] -> text_fields ["name"] e)
  /\ exists found,
      filterText ["name"] [Text "cat"] [cat_sat] = Ok found
      /\ (In cat_sat found
          <-> In cat_sat [cat_sat]
              /\ forall w, In w (split " " (toLowerCase "cat")) ->
                           contains_word ["name"] cat_sat w).
Proof.
  assert (N : "cat" <> EmptyString) by discriminate.
  assert (W : forall w, In w (split " " (toLowerCase "cat")) ->
                        plain_word w = true).
  { intros w [<-|[]]. reflexivity. }
  assert (F : forall e, In e [cat_sat] -> text_fields ["name"] e).
  { intros e [<-|[]] f [<-|[]]. eexists. reflexivity. }
  exact (conj eq_refl (conj N (conj W (conj F
           (proj1 text_whole_words ["name"] [Text "cat"] "cat" [cat_sat] cat_sat
              eq_refl N W F))))).
Defined.

(** C7, as stated, fails: the word is read as a pattern, so ["c.t"]
    matches a field that does not contain it; and [\b] asks for a letter,
    digit or underscore on one side, so ["sat!"] does not match a field
    that ends with that word. *)
Lemma text_word_is_pattern :
  filterText ["name"] [Text "c.t"] [cat_sat] = Ok [cat_sat]
  /\ ~ (exists pre post, "a cat sat" = (pre ++ "c.t" ++ post)%string)
  /\ filterText ["name"] [Text "sat!"] [sat_bang] = Ok []
  /\ whole_word "sat!" "a cat sat!".
Proof.
  split; [reflexivity|]. split; [|split; [reflexivity|]].
  - intros (pre & post & H).
    repeat (destruct pre as [|? pre]; simpl in H; [discriminate H|];
           injection H as _ H).
    destruct pre; discriminate H.
  - exists "a cat ", EmptyString. repeat split.
Qed.

(** ** Serialized writes (C3) *)

Lemma calls_snoc (t : list event) (ev : event) :
  calls (t ++ [ev]) = calls t ++ calls [ev].
Proof. unfold calls. apply flat_map_app. Qed.


Lemma loadAll_flushData (all ins dels : list object) :
  loadAll (on_disk (Some (flushData all ins dels)))
  = Ok (map reread (rewritten all ins dels)).
Proof.
  unfold loadAll, readFile. simpl. rewrite flushData_lines. apply parseData_lines.
Qed.



Lemma reread_plain (r : object) : plain (reread r).
Proof. apply set_plain; [discriminate | apply norm_is_plain]. Qed.


Lemma live_apply_insertion (all : list object) (e : object) :
  Forall plain all ->
  live (apply1 all (insertion e)) = live all ++ [stored e].
Proof.
  intros H. unfold apply1, rewritten. simpl.
  rewrite map_mark_nil, map_app, live_app, live_reread by exact H.
  f_equal. unfold live. simpl. rewrite exists_reread.
  unfold exists_. rewrite get_set_same. simpl.
  now rewrite omit_reread, omit_set.
Qed.


Lemma stored_storable (e : object) : storable e -> stored e = e.
Proof.
  intros [Hp Hx]. unfold stored. rewrite omit_notin by exact Hx.
  now apply norm_plain.
Qed.

Lemma run_app (l0 : loop) (t : list event) (l : loop) :
  run l0 t l ->
  forall t' l', run l t' l' -> run l0 (t ++ t') l'.
Proof.
  intros H t' l' H'. induction H' as [|t' l1 l2 ev H1 IH Hs].
  - now rewrite List.app_nil_r.
  - rewrite List.app_assoc. eapply run_snoc; eauto.
Qed.




Lemma two_calls_run : run (start "") two_calls after_two_calls.
Proof.
  change two_calls
    with (((((((([] ++ [Call (insertion ann)]) ++ [Begin (insertion ann)])
                ++ [Call (insertion bob)]) ++ [Read (insertion ann)])
              ++ [Rewritten (insertion ann)]) ++ [Begin (insertion bob)])
            ++ [Read (insertion bob)]) ++ [Rewritten (insertion bob)]).
  eapply run_snoc; [|apply step_rewritten].
  eapply run_snoc;
    [|apply (step_read (file (store_of [ann])) [] (insertion bob)
                [set "exists" (VBool true) ann]); reflexivity].
  eapply run_snoc; [|apply step_begin].
  eapply run_snoc;
    [|apply (step_rewritten (Some "") [insertion bob] (insertion ann))].
  eapply run_snoc;
    [|apply (step_read (Some "") [insertion bob] (insertion ann) []); reflexivity].
  eapply run_snoc;
    [|apply (step_call (Some "") [] (Loading (insertion ann)) (insertion bob))].
  eapply run_snoc; [|apply (step_begin (Some "") [] (insertion ann))].
  eapply run_snoc; [apply run_nil|].
  apply (step_call (Some "") [] Idle (insertion ann)).
Defined.


(** * Further properties of the code *)

(** ** The stages of [filter] *)

Lemma filter_filter {A : Type} (f g : A -> bool) (l : list A) :
  List.filter f (List.filter g l) = List.filter (fun x => g x && f x) l.
Proof.
  induction l as [|x l IH]; simpl; [reflexivity|].
  destruct (g x); simpl; [|exact IH]. destruct (f x); now rewrite IH.
Qed.

Lemma filter_comm {A : Type} (f g : A -> bool) (l : list A) :
  List.filter f (List.filter g l) = List.filter g (List.filter f l).
Proof.
  rewrite !filter_filter. apply filter_ext. intros x. apply andb_comm.
Qed.

Lemma filter_true {A : Type} (l : list A) : List.filter (fun _ => true) l = l.
Proof. induction l as [|x l IH]; simpl; [reflexivity|]. now rewrite IH. Qed.

Lemma filterAnd_fold (subs : list Queryable) (entities : list object) :
  fold_left (fun acc sub => filterParams (sub_query sub) acc) subs entities
  = List.filter
      (fun entity => forallb (fun sub => queryMatches (sub_query sub) entity) subs)
      entities.
Proof.
  revert entities. induction subs as [|sub subs IH]; intros entities; simpl.
  - now rewrite filter_true.
  - rewrite IH. unfold filterParams. apply filter_filter.
Qed.

Lemma filterAnd_passes (query : Query) (entities : list object) :
  filterAnd query entities = List.filter (passes_and query) entities.
Proof.
  unfold filterAnd, passes_and. destruct (q_and query) as [subs|].
  - apply filterAnd_fold.
  - now rewrite filter_true.
Qed.

Lemma find_existsb {A : Type} (f : A -> bool) (l : list A) :
  match List.find f l with Some _ => true | None => false end = existsb f l.
Proof.
  induction l as [|x l IH]; simpl; [reflexivity|]. now destruct (f x).
Qed.

Lemma filterOr_passes (query : Query) (entities : list object) :
  filterOr query entities = List.filter (passes_or query) entities.
Proof.
  unfold filterOr, passes_or. destruct (q_or query) as [subs|].
  - apply filter_ext. intros e. apply find_existsb.
  - now rewrite filter_true.
Qed.

Lemma filterM_Ok {A : Type} (p : A -> result bool) (xs ys : list A) :
  filterM p xs = Ok ys ->
  ys = List.filter (fun x => match p x with Ok b => b | Throw _ => false end) xs
  /\ forall x, In x xs -> exists b, p x = Ok b.
Proof.
  revert ys. induction xs as [|x xs IH]; simpl; intros ys H.
  - injection H as <-. split; [reflexivity | now intros x []].
  - destruct (p x) as [b|] eqn:E; [|discriminate]. simpl in H.
    destruct (filterM p xs) as [ys'|]; [|discriminate]. simpl in H.
    injection H as <-. destruct (IH ys' eq_refl) as [-> Hall]. split.
    + now destruct b.
    + intros y [<-|Hy]; eauto.
Qed.

Lemma filterM_total {A : Type} (p : A -> result bool) (xs : list A) :
  (forall x, In x xs -> exists b, p x = Ok b) ->
  filterM p xs
  = Ok (List.filter (fun x => match p x with Ok b => b | Throw _ => false end) xs).
Proof.
  induction xs as [|x xs IH]; simpl; intros H; [reflexivity|].
  destruct (H x (or_introl eq_refl)) as (b & ->). simpl.
  rewrite IH by (intros y Hy; apply H; now right). simpl. now destruct b.
Qed.

Lemma filterM_restrict {A : Type} (p : A -> result bool) (f : A -> bool)
  (xs ys : list A) :
  filterM p xs = Ok ys ->
  filterM p (List.filter f xs) = Ok (List.filter f ys).
Proof.
  intros H. apply filterM_Ok in H. destruct H as [-> Hall].
  rewrite filterM_total.
  - f_equal. apply filter_comm.
  - intros x Hx. apply filter_In in Hx. apply Hall, Hx.
Qed.

Lemma filterM_false {A : Type} (p : A -> result bool) (xs : list A) :
  (forall x, p x = Ok false) -> filterM p xs = Ok [].
Proof.
  intros H. induction xs as [|x xs IH]; simpl; [reflexivity|].
  now rewrite H, IH.
Qed.

Lemma filterM_Throw {A : Type} (p : A -> result bool) (xs : list A) (x : A) :
  In x xs -> (exists err, p x = Throw err) -> exists err, filterM p xs = Throw err.
Proof.
  intros Hin [err Hx]. induction xs as [|y xs IH]; [contradiction|].
  simpl. destruct (p y) as [b|e] eqn:Py; simpl; [|eauto].
  destruct Hin as [->|Hin]; [congruence|].
  destruct (IH Hin) as [err' ->]. simpl. eauto.
Qed.

Lemma filterText_passes (fts : list string) (query : Query)
  (entities found : list object) :
  filterText fts query entities = Ok found ->
  found = List.filter (passes_text fts query) entities.
Proof.
  unfold filterText, passes_text, text_words.
  destruct (q_text query) as [text|].
  - destruct (String.eqb text "").
    + intros [= <-]. now rewrite filter_true.
    + intros H. apply filterM_Ok in H. apply H.
  - intros [= <-]. now rewrite filter_true.
Qed.

Lemma filterText_restrict (fts : list string) (q : Query) (f : object -> bool)
  (entities found : list object) :
  filterText fts q entities = Ok found ->
  filterText fts q (List.filter f entities) = Ok (List.filter f found).
Proof.
  unfold filterText. destruct (q_text q) as [text|].
  - destruct (String.eqb text "").
    + now intros [= <-].
    + apply filterM_restrict.
  - now intros [= <-].
Qed.

Lemma filter_Ok_accepts (fts : list string) (query : Query)
  (entities found : list object) :
  Database.filter fts query entities = Ok found ->
  found = List.filter (accepts fts query) entities.
Proof.
  unfold Database.filter.
  destruct (filterText fts query (filterOr query (filterAnd query entities)))
    as [acc|] eqn:T; [|discriminate].
  simpl. intros [= <-]. apply filterText_passes in T. subst acc.
  rewrite filterOr_passes, filterAnd_passes. unfold filterParams.
  rewrite !filter_filter. apply filter_ext. intros e. unfold accepts.
  now rewrite !andb_assoc.
Qed.

(** the entities that the query accepts among fewer entities *)
Lemma filter_restrict (fts : list string) (q : Query) (f : object -> bool)
  (entities found : list object) :
  Database.filter fts q entities = Ok found ->
  Database.filter fts q (List.filter f entities) = Ok (List.filter f found).
Proof.
  unfold Database.filter.
  destruct (filterText fts q (filterOr q (filterAnd q entities))) as [acc|] eqn:T;
    [|discriminate].
  simpl. intros [= <-].
  rewrite filterAnd_passes, filterOr_passes in *.
  rewrite (filter_comm (passes_and q) f), (filter_comm (passes_or q) f).
  rewrite (filterText_restrict fts q f _ _ T). simpl. f_equal.
  unfold filterParams. apply filter_comm.
Qed.

Lemma split_nonempty (sep : ascii) (s : string) : split sep s <> [].
Proof.
  destruct s as [|c r]; simpl; [discriminate|].
  destruct (Ascii.eqb c sep); [discriminate|].
  destruct (split sep r); discriminate.
Qed.

(** X1: [filter] is one pass over the entities: when it returns, it
    returns, in their order, exactly the entities that pass the test of
    each of the four stages ([$and], [$or], [$text], the field
    predicates of the query), for a query whose field keys each carry one
    operator. *)
Theorem filter_accepts (fts : list string) (query : Query)
  (entities found : list object) :
  Database.filter fts query entities = Ok found ->
  found = List.filter (accepts fts query) entities.
Proof.
  unfold Database.filter.
  destruct (filterText fts query (filterOr query (filterAnd query entities)))
    as [acc|] eqn:T; [|discriminate].
  simpl. intros [= <-]. apply filterText_passes in T. subst acc.
  rewrite filterOr_passes, filterAnd_passes. unfold filterParams.
  rewrite !filter_filter. apply filter_ext. intros e. unfold accepts.
  now rewrite !andb_assoc.
Qed.

Lemma filter_accepts_witness :
  Database.filter ["name"]
    [Text "lee"; Or [[("_id", Q_lt (VNum 2))]; [("_id", Q_gt (VNum 2))]]]
    [ann; bob; sat_bang]
  = Ok [ann]
  /\ [ann]
     = List.filter
         (accepts ["name"]
            [Text "lee"; Or [[("_id", Q_lt (VNum 2))]; [("_id", Q_gt (VNum 2))]]])
         [ann; bob; sat_bang].
Proof.
  assert (H : Database.filter ["name"]
                [Text "lee";
                 Or [[("_id", Q_lt (VNum 2))]; [("_id", Q_gt (VNum 2))]]]
                [ann; bob; sat_bang]
              = Ok [ann]) by (vm_compute; reflexivity).
  exact (conj H (filter_accepts _ _ _ _ H)).
Defined.

(** X2: with [$and], [filterAnd] keeps an entity if and only if it
    satisfies every field predicate of every sub-query; an empty [$and]
    keeps every entity. *)
Theorem filterAnd_every (query : Query) (subs : list Queryable)
  (entities : list object) (entity : object) :
  q_and query = Some subs ->
  (In entity (filterAnd query entities)
   <-> In entity entities /\ forall sub, In sub subs -> satisfies entity sub).
Proof.
  intros Hq. rewrite filterAnd_passes, filter_In. unfold passes_and. rewrite Hq.
  apply and_iff_compat_l. rewrite forallb_forall. split.
  - intros H sub Hs. apply queryMatches_sub. now apply H.
  - intros H sub Hs. apply queryMatches_sub. now apply H.
Qed.

Lemma filterAnd_every_witness :
  q_and [And [both]] = Some [both]
  /\ (In a1b1 (filterAnd [And [both]] [a1b2; a1b1])
      <-> In a1b1 [a1b2; a1b1]
          /\ forall sub, In sub [both] -> satisfies a1b1 sub).
Proof.
  exact (conj eq_refl
           (filterAnd_every [And [both]] [both] [a1b2; a1b1] a1b1 eq_refl)).
Defined.

(** X3: filtering what [filter] returned, by the same query, returns it
    again: every entity found still matches, and none throws. *)
Theorem filter_idempotent (fts : list string) (query : Query)
  (entities found : list object) :
  Database.filter fts query entities = Ok found ->
  Database.filter fts query found = Ok found.
Proof.
  intros H. pose proof (filter_Ok_accepts _ _ _ _ H) as E.
  pose proof (filter_restrict fts query (accepts fts query) _ _ H) as R.
  rewrite <- E in R. rewrite R. f_equal. rewrite E.
  rewrite filter_filter. apply filter_ext. intros e. apply andb_diag.
Qed.

Lemma filter_idempotent_witness :
  Database.filter ["name"] [Text "lee"; Field "_id" (Q_lt (VNum 2))] [ann; bob]
  = Ok [ann]
  /\ Database.filter ["name"] [Text "lee"; Field "_id" (Q_lt (VNum 2))] [ann]
     = Ok [ann].
Proof.
  assert (H : Database.filter ["name"]
                [Text "lee"; Field "_id" (Q_lt (VNum 2))] [ann; bob]
              = Ok [ann]) by (vm_compute; reflexivity).
  exact (conj H (filter_idempotent _ _ _ _ H)).
Defined.

(** X4: a database constructed with no full-text-search field finds
    nothing for a query with a non-empty [$text], whatever the entities
    hold: [some] over no field is false for every word. *)
Theorem text_without_fields (q : Query) (entities : list object) :
  text_words q <> None -> Database.filter [] q entities = Ok [].
Proof.
  intros H. unfold Database.filter, filterText. unfold text_words in H.
  destruct (q_text q) as [text|]; [|congruence].
  destruct (String.eqb text ""); [congruence|].
  rewrite filterM_false; [reflexivity|].
  intros e. unfold textMatches.
  destruct (split " " (toLowerCase text)) as [|w ws] eqn:E;
    [now apply split_nonempty in E|].
  reflexivity.
Qed.

Lemma text_without_fields_witness :
  text_words [Text "cat"] <> None
  /\ Database.filter [] [Text "cat"] [cat_sat] = Ok [].
Proof.
  assert (H : text_words [Text "cat"] <> None) by (vm_compute; discriminate).
  exact (conj H (text_without_fields [Text "cat"] [cat_sat] H)).
Defined.

(** X5: [filterText] runs before the field predicates and reads the first
    full-text-search field of every entity that passed [$and] and [$or]:
    if one of them holds no string there, a query with a non-empty
    [$text] throws, even when a field predicate of the query would have
    rejected that entity. *)
Theorem text_field_missing (f : string) (fts : list string) (q : Query)
  (entities : list object) (e : object) :
  text_words q <> None ->
  In e entities -> passes_and q e = true -> passes_or q e = true ->
  (forall s, get f e <> VStr s) ->
  exists err, Database.filter (f :: fts) q entities = Throw err.
Proof.
  intros Hw Hin Ha Ho Hf.
  unfold Database.filter, filterText. unfold text_words in Hw.
  destruct (q_text q) as [text|]; [|congruence].
  destruct (String.eqb text ""); [congruence|].
  rewrite filterAnd_passes, filterOr_passes.
  destruct (filterM_Throw
              (textMatches (f :: fts) (split " " (toLowerCase text)))
              (List.filter (passes_or q) (List.filter (passes_and q) entities))
              e) as [err E].
  - apply filter_In. split; [|exact Ho]. apply filter_In. now split.
  - unfold textMatches.
    destruct (split " " (toLowerCase text)) as [|w ws] eqn:E;
      [now apply split_nonempty in E|].
    simpl. unfold fieldContains at 1.
    destruct (get f e) as [| | | |s]; simpl; eauto.
    now elim (Hf s).
  - rewrite E. simpl. eauto.
Qed.

Lemma text_field_missing_witness :
  text_words [Text "cat"; Field "_id" (Q_eq (VNum 1))] <> None
  /\ In a1b1 [cat_sat; a1b1]
  /\ passes_and [Text "cat"; Field "_id" (Q_eq (VNum 1))] a1b1 = true
  /\ passes_or [Text "cat"; Field "_id" (Q_eq (VNum 1))] a1b1 = true
  /\ (forall s, get "name" a1b1 <> VStr s)
  /\ exists err,
      Database.filter ["name"] [Text "cat"; Field "_id" (Q_eq (VNum 1))]
        [cat_sat; a1b1]
      = Throw err.
Proof.
  assert (W : text_words [Text "cat"; Field "_id" (Q_eq (VNum 1))] <> None)
    by (vm_compute; discriminate).
  assert (I : In a1b1 [cat_sat; a1b1]) by (right; left; reflexivity).
  assert (N : forall s, get "name" a1b1 <> VStr s)
    by (intros s; vm_compute; discriminate).
  exact (conj W (conj I (conj eq_refl (conj eq_refl (conj N
           (text_field_missing "name" [] _ [cat_sat; a1b1] a1b1
              W I eq_refl eq_refl N)))))).
Defined.

(** ** [project] and [sort] *)

Lemma projected_fold (entity : object) (ks : list string) (acc : object) :
  NoDup (keys acc ++ ks) ->
  fold_left (fun acc key => set key (get key entity) acc) ks acc
  = acc ++ map (fun k => (k, get k entity)) ks.
Proof.
  revert acc. induction ks as [|k ks IH]; intros acc H; simpl.
  - now rewrite List.app_nil_r.
  - assert (Hk : ~ In k (keys acc)).
    { apply NoDup_remove_2 in H. intros Hin. apply H, in_or_app. now left. }
    rewrite set_notin by exact Hk.
    rewrite IH.
    + now rewrite <- List.app_assoc.
    + rewrite keys_app. simpl. now rewrite <- List.app_assoc.
Qed.

Lemma get_map_pairs (entity : object) (ks : list string) (k : string) :
  get k (map (fun k => (k, get k entity)) ks)
  = if in_dec string_dec k ks then get k entity else VUndefined.
Proof.
  induction ks as [|k' ks IH]; simpl; [reflexivity|].
  destruct (String.eqb k k') eqn:E.
  - apply String.eqb_eq in E. subst k'.
    destruct (string_dec k k); [reflexivity|congruence].
  - apply String.eqb_neq in E. rewrite IH.
    destruct (string_dec k' k); [congruence|].
    destruct (in_dec string_dec k ks); reflexivity.
Qed.

(** X6: with a projection, [project] returns one object per entity, in
    the same order; its keys are the keys of the projection, in the
    projection's order, whatever the entity holds; each has the entity's
    value, which is [undefined] for a field that the entity lacks. *)
Theorem project_only (ks : QueryProjection) (entities : list object) :
  NoDup ks ->
  List.length (project (Some ks) entities) = List.length entities
  /\ Forall2
       (fun entity p =>
          keys p = ks
          /\ forall k, get k p = if in_dec string_dec k ks
                                 then get k entity else VUndefined)
       entities (project (Some ks) entities).
Proof.
  intros Hk. split; [apply length_map|].
  unfold project. induction entities as [|e es IH]; simpl; constructor; [|exact IH].
  rewrite projected_fold by exact Hk. simpl. split.
  - unfold keys. rewrite map_map. simpl. apply map_id.
  - intros k. apply get_map_pairs.
Qed.

Lemma project_only_witness :
  NoDup ["name"; "age"]
  /\ List.length (project (Some ["name"; "age"]) [ann; bob])
     = List.length [ann; bob]
  /\ Forall2
       (fun entity p =>
          keys p = ["name"; "age"]
          /\ forall k, get k p = if in_dec string_dec k ["name"; "age"]
                                 then get k entity else VUndefined)
       [ann; bob] (project (Some ["name"; "age"]) [ann; bob]).
Proof.
  assert (N : NoDup ["name"; "age"])
    by (repeat constructor; simpl; intuition discriminate).
  exact (conj N (project_only ["name"; "age"] [ann; bob] N)).
Defined.

Lemma value_eqb_sym (a b : value) : value_eqb a b = value_eqb b a.
Proof.
  destruct (value_eqb a b) eqn:E.
  - apply value_eqb_eq in E. subst. symmetry. apply value_eqb_refl.
  - destruct (value_eqb b a) eqn:E'; [|reflexivity].
    apply value_eqb_eq in E'. subst. now rewrite value_eqb_refl in E.
Qed.

Lemma compare_step_swap (a b : object) (acc : Z) (fd : string * Z) :
  compare_step b a (- acc) fd = (- compare_step a b acc fd)%Z.
Proof.
  unfold compare_step, strict_eq.
  rewrite (value_eqb_sym (get (fst fd) b) (get (fst fd) a)).
  replace (- acc =? 0)%Z with (acc =? 0)%Z
    by (destruct (Z.eqb_spec acc 0), (Z.eqb_spec (- acc) 0); lia || reflexivity).
  destruct (negb (acc =? 0)%Z || value_eqb (get (fst fd) a) (get (fst fd) b));
    [reflexivity|].
  unfold js_gt.
  destruct (js_lt (get (fst fd) b) (get (fst fd) a)) eqn:G.
  - rewrite (js_lt_asym _ _ G). reflexivity.
  - destruct (js_lt (get (fst fd) a) (get (fst fd) b)); [lia|reflexivity].
Qed.

(** swapping the arguments of the comparator changes the sign *)
Lemma compareBy_swap (s : QuerySort) (a b : object) :
  compareBy s b a = (- compareBy s a b)%Z.
Proof.
  unfold compareBy. change 0%Z with (- 0)%Z at 1. generalize 0%Z as acc.
  induction s as [|fd s IH]; intros acc; simpl; [reflexivity|].
  rewrite compare_step_swap. apply IH.
Qed.

Lemma sort_insert_perm {A : Type} (cmp : A -> A -> Z) (x : A) (l : list A) :
  Permutation (x :: l) (sort_insert cmp x l).
Proof.
  induction l as [|y l IH]; simpl; [reflexivity|].
  destruct (cmp x y >? 0)%Z; [|reflexivity].
  rewrite perm_swap. now constructor.
Qed.

Lemma Array_sort_perm {A : Type} (cmp : A -> A -> Z) (l : list A) :
  Permutation l (Array_sort cmp l).
Proof.
  induction l as [|x l IH]; simpl; [constructor|].
  rewrite <- sort_insert_perm. now constructor.
Qed.

Lemma ordered_cons {A : Type} (cmp : A -> A -> Z) (x y : A) (l : list A) :
  ordered cmp (x :: y :: l) <-> (cmp x y <= 0)%Z /\ ordered cmp (y :: l).
Proof. reflexivity. Qed.

Lemma sort_insert_ordered {A : Type} (cmp : A -> A -> Z) (x : A) (l : list A) :
  (forall a b, cmp b a = (- cmp a b)%Z) ->
  ordered cmp l -> ordered cmp (sort_insert cmp x l).
Proof.
  intros Hanti. induction l as [|y l IH]; intros Hl; [exact I|].
  simpl. destruct (Z.gtb_spec (cmp x y) 0) as [Hgt|Hle].
  - destruct l as [|z l].
    + simpl. split; [|exact I]. rewrite (Hanti x y). lia.
    + apply ordered_cons in Hl. destruct Hl as [Hyz Hl].
      specialize (IH Hl). simpl in IH |- *.
      destruct (Z.gtb_spec (cmp x z) 0) as [Hgt'|Hle'].
      * split; [exact Hyz | exact IH].
      * split; [rewrite (Hanti x y); lia | exact IH].
  - apply ordered_cons. split; [exact Hle | exact Hl].
Qed.

Lemma Array_sort_ordered {A : Type} (cmp : A -> A -> Z) (l : list A) :
  (forall a b, cmp b a = (- cmp a b)%Z) -> ordered cmp (Array_sort cmp l).
Proof.
  intros Hanti. induction l as [|x l IH]; simpl; [exact I|].
  now apply sort_insert_ordered.
Qed.

Lemma ordered_impl {A : Type} (cmp cmp' : A -> A -> Z) (l : list A) :
  (forall x y, In x l -> In y l -> (cmp x y <= 0)%Z -> (cmp' x y <= 0)%Z) ->
  ordered cmp l -> ordered cmp' l.
Proof.
  induction l as [|x l IH]; intros H Hl; [exact I|].
  destruct l as [|y l]; [exact I|].
  apply ordered_cons in Hl. destruct Hl as [Hxy Hl]. apply ordered_cons. split.
  - apply H; [now left | right; now left | exact Hxy].
  - apply IH; [|exact Hl]. intros a b Ha Hb. apply H; now right.
Qed.

Lemma sort_insert_tied {A : Type} (cmp : A -> A -> Z) (x : A) (l : list A) :
  (forall y, In y l -> (cmp x y <= 0)%Z) -> sort_insert cmp x l = x :: l.
Proof.
  destruct l as [|y l]; simpl; [reflexivity|]. intros H.
  destruct (Z.gtb_spec (cmp x y) 0) as [Hgt|]; [|reflexivity].
  specialize (H y (or_introl eq_refl)). lia.
Qed.

(** X7: [sort] leaves a list as it is when no entity comes before one
    that the comparator puts before it; in particular entities that tie
    on every field of the mapping keep the order of the log. *)
Theorem sort_keeps_order (m : QuerySort) (entities : list object) :
  ForallOrdPairs (fun a b => (compareBy m a b <= 0)%Z) entities ->
  Database.sort (Some m) entities = entities.
Proof.
  unfold Database.sort. induction 1 as [|x l Hx Hl IH]; simpl; [reflexivity|].
  rewrite IH. apply sort_insert_tied. intros y Hy.
  rewrite Forall_forall in Hx. now apply Hx.
Qed.

Lemma sort_keeps_order_witness :
  ForallOrdPairs (fun a b => (compareBy [("a", 1%Z)] a b <= 0)%Z) [a1b2; a1b1]
  /\ Database.sort (Some [("a", 1%Z)]) [a1b2; a1b1] = [a1b2; a1b1].
Proof.
  assert (H : ForallOrdPairs (fun a b => (compareBy [("a", 1%Z)] a b <= 0)%Z)
                [a1b2; a1b1]).
  { constructor; [|constructor; [constructor|constructor]].
    constructor; [|constructor]. vm_compute. discriminate. }
  exact (conj H (sort_keeps_order [("a", 1%Z)] [a1b2; a1b1] H)).
Defined.

Lemma compareBy_number (f : string) (dir : Z) (a b : object) (n m : Z) :
  get f a = VNum n -> get f b = VNum m ->
  compareBy [(f, dir)] a b
  = if (n =? m)%Z then 0%Z else if (m <? n)%Z then dir else (- dir)%Z.
Proof.
  intros Ha Hb. unfold compareBy, compare_step, strict_eq, js_gt, js_lt.
  simpl. rewrite Ha, Hb. simpl.
  destruct (Z.eqb_spec n m) as [->|Hne]; [reflexivity|].
  destruct (Z.ltb_spec m n) as [Hlt|Hge]; [reflexivity|].
  destruct (Z.ltb_spec n m) as [Hlt'|Hge']; [reflexivity | lia].
Qed.

(** X8: sorting by one field that holds a number in every entity returns
    the same entities with the numbers in ascending order for the
    direction [1] and in descending order for the direction [-1]. *)
Theorem sort_by_number (f : string) (dir : Z) (entities : list object) :
  dir = 1%Z \/ dir = (-1)%Z ->
  (forall e, In e entities -> exists n, get f e = VNum n) ->
  Permutation entities (Database.sort (Some [(f, dir)]) entities)
  /\ ordered (fun a b => dir * (number_at f a - number_at f b))%Z
             (Database.sort (Some [(f, dir)]) entities).
Proof.
  intros Hdir Hnum.
  assert (P : Permutation entities (Database.sort (Some [(f, dir)]) entities))
    by apply Array_sort_perm.
  split; [exact P|].
  apply (ordered_impl (compareBy [(f, dir)])).
  - intros x y Hx Hy.
    apply Permutation_sym in P.
    destruct (Hnum x (Permutation_in x P Hx)) as [n Hn].
    destruct (Hnum y (Permutation_in y P Hy)) as [m Hm].
    rewrite (compareBy_number f dir x y n m Hn Hm).
    unfold number_at. rewrite Hn, Hm.
    destruct (Z.eqb_spec n m) as [->|Hne]; [lia|].
    destruct (Z.ltb_spec m n); destruct Hdir as [->| ->]; lia.
  - apply Array_sort_ordered. intros a b. apply compareBy_swap.
Qed.

Lemma sort_by_number_witness :
  ((-1)%Z = 1%Z \/ (-1)%Z = (-1)%Z)
  /\ (forall e, In e [a1b1; a5_b2; a1b2] -> exists n, get "b" e = VNum n)
  /\ Permutation [a1b1; a5_b2; a1b2]
       (Database.sort (Some [("b", (-1)%Z)]) [a1b1; a5_b2; a1b2])
  /\ ordered (fun a b => (-1) * (number_at "b" a - number_at "b" b))%Z
             (Database.sort (Some [("b", (-1)%Z)]) [a1b1; a5_b2; a1b2]).
Proof.
  assert (D : (-1)%Z = 1%Z \/ (-1)%Z = (-1)%Z) by (right; reflexivity).
  assert (N : forall e, In e [a1b1; a5_b2; a1b2] -> exists n, get "b" e = VNum n).
  { intros e [<-|[<-|[<-|[]]]]; eexists; reflexivity. }
  exact (conj D (conj N (sort_by_number "b" (-1)%Z [a1b1; a5_b2; a1b2] D N))).
Defined.

(** ** What [find] returns *)

(** X9: without a projection, [find] returns exactly the live entities
    that the query accepts, each as often as the log has it, possibly in
    another order; none of them has a field [exists]. *)
Theorem find_returns (fts : list string) (q : Query) (opts : QueryOptions)
  (st : state) (found : list object) :
  opt_projection opts = None ->
  find fts q opts st = Ok found ->
  exists before,
    load st = Ok before
    /\ Permutation found (List.filter (accepts fts q) before)
    /\ forall e, In e found -> ~ In "exists" (keys e).
Proof.
  intros Hp. unfold find. rewrite Hp.
  destruct (load st) as [before|] eqn:L; [|discriminate]. simpl.
  destruct (Database.filter fts q before) as [f0|] eqn:F; [|discriminate].
  simpl. intros [= <-]. exists before. split; [reflexivity|].
  apply filter_Ok_accepts in F. subst f0.
  assert (P : Permutation (Database.sort (opt_sort opts)
                             (List.filter (accepts fts q) before))
                          (List.filter (accepts fts q) before)).
  { unfold Database.sort. destruct (opt_sort opts); [|reflexivity].
    apply Permutation_sym, Array_sort_perm. }
  split; [exact P|].
  intros e He. eapply Permutation_in in He; [|exact P].
  apply filter_In in He. destruct He as [He _].
  unfold load in L. destruct (loadAll st) as [all|]; [|discriminate].
  simpl in L. injection L as <-. unfold live in He.
  apply in_map_iff in He. destruct He as (r & <- & _). apply omit_keys.
Qed.

Lemma find_returns_witness :
  opt_projection by_a_then_b_desc = None
  /\ find ["name"] [Field "a" (Q_eq (VNum 1))] by_a_then_b_desc
       (store_of [a5_b2; a1b1; a1b2])
     = Ok [a1b2; a1b1]
  /\ exists before,
      load (store_of [a5_b2; a1b1; a1b2]) = Ok before
      /\ Permutation [a1b2; a1b1]
           (List.filter (accepts ["name"] [Field "a" (Q_eq (VNum 1))]) before)
      /\ forall e, In e [a1b2; a1b1] -> ~ In "exists" (keys e).
Proof.
  assert (F : find ["name"] [Field "a" (Q_eq (VNum 1))] by_a_then_b_desc
                (store_of [a5_b2; a1b1; a1b2])
              = Ok [a1b2; a1b1]) by (vm_compute; reflexivity).
  exact (conj eq_refl (conj F
           (find_returns ["name"] _ by_a_then_b_desc _ _ eq_refl F))).
Defined.

(** ** [insert] and [delete], awaited *)

Lemma ann_storable : storable ann.
Proof.
  split; [split|].
  - repeat constructor; simpl; intuition discriminate.
  - repeat constructor; discriminate.
  - simpl; intuition discriminate.
Qed.

Lemma insert_load (e : object) (st st' : state) :
  insert e st = (Ok tt, st') ->
  exists all, loadAll st = Ok all
              /\ load st = Ok (live all)
              /\ load st' = Ok (live all ++ [stored e]).
Proof.
  intros H. apply flush_Ok in H.
  destruct H as (all & _ & Hall & _ & _ & Hall').
  exists all. split; [exact Hall|]. unfold load. rewrite Hall, Hall'. simpl.
  split; [reflexivity|]. f_equal.
  apply (live_apply_insertion all e).
  apply record_ok_plain. eapply loadAll_ok. exact Hall.
Qed.

Lemma live_mark (deleted all : list object) :
  live (map (mark deleted) all) = List.filter (kept deleted) (live all).
Proof.
  induction all as [|r all IH]; [reflexivity|].
  change (r :: all) with ([r] ++ all).
  rewrite map_app, !live_app, filter_app, IH. f_equal.
  unfold live, mark, kept. simpl.
  destruct (includes (map (get "_id") deleted) (get "_id" r)) eqn:E.
  - unfold exists_ at 1. rewrite get_set_same. simpl.
    destruct (exists_ r); simpl; [|reflexivity].
    rewrite (get_omit_other "_id" "exists") by discriminate. now rewrite E.
  - destruct (exists_ r); simpl; [|reflexivity].
    rewrite (get_omit_other "_id" "exists") by discriminate. now rewrite E.
Qed.

Lemma delete_leaves_none (fts : list string) (q : Query) (st st' : state) :
  delete fts q st = (Ok tt, st') ->
  exists rest, load st' = Ok rest /\ Database.filter fts q rest = Ok [].
Proof.
  intros H. apply delete_Ok in H.
  destruct H as (all & matched & _ & Hm & _ & _ & Hl).
  eexists. split; [exact Hl|].
  rewrite live_mark, (filter_restrict fts q (kept matched) _ _ Hm). f_equal.
  apply filter_none. intros e He. unfold kept.
  apply negb_false_iff, includes_In. now apply in_map.
Qed.

(** X10: an [insert] that completes changes what [load] returns in one
    way: the entity is added at the end; the live entities before it are
    the same, in the same order (for an entity that holds JSON data and
    has no field [exists]). *)
Theorem insert_appends (e : object) (st st' : state) :
  storable e ->
  insert e st = (Ok tt, st') ->
  exists before, load st = Ok before /\ load st' = Ok (before ++ [e]).
Proof.
  intros Hs H. apply insert_load in H. destruct H as (all & _ & H1 & H2).
  exists (live all). split; [exact H1|]. now rewrite H2, stored_storable.
Qed.

Lemma insert_appends_witness :
  storable ann
  /\ insert ann (store_of [bob]) = (Ok tt, store_of [bob; ann])
  /\ exists before,
      load (store_of [bob]) = Ok before
      /\ load (store_of [bob; ann]) = Ok (before ++ [ann]).
Proof.
  assert (I : insert ann (store_of [bob]) = (Ok tt, store_of [bob; ann]))
    by (vm_compute; reflexivity).
  exact (conj ann_storable (conj I (insert_appends ann _ _ ann_storable I))).
Defined.

(** X11: [insert] does not look for the identifier in the log: inserting
    the same entity twice makes [find] by its identifier return it twice
    more than before (for an entity that holds JSON data and has no
    field [exists]). *)
Theorem insert_twice (fts : list string) (e : object) (st st1 st2 : state)
  (found : list object) :
  storable e ->
  find fts (by_id (get "_id" e)) no_options st = Ok found ->
  insert e st = (Ok tt, st1) ->
  insert e st1 = (Ok tt, st2) ->
  find fts (by_id (get "_id" e)) no_options st2 = Ok (found ++ [e; e]).
Proof.
  intros Hs Hf H1 H2.
  apply insert_load in H1. destruct H1 as (all & _ & L0 & L1).
  apply insert_load in H2. destruct H2 as (all1 & _ & L1' & L2).
  rewrite L1 in L1'. injection L1' as E. rewrite <- E in L2.
  rewrite stored_storable in L2 by exact Hs.
  rewrite find_no_options in *. rewrite L0 in Hf. rewrite L2. simpl in *.
  rewrite filter_by_id in *. injection Hf as <-. f_equal.
  rewrite <- List.app_assoc, filter_app. f_equal. simpl.
  unfold strict_eq. now rewrite value_eqb_refl.
Qed.

Lemma insert_twice_witness :
  storable ann
  /\ find ["name"] (by_id (get "_id" ann)) no_options (store_of [bob]) = Ok []
  /\ insert ann (store_of [bob]) = (Ok tt, store_of [bob; ann])
  /\ insert ann (store_of [bob; ann]) = (Ok tt, store_of [bob; ann; ann])
  /\ find ["name"] (by_id (get "_id" ann)) no_options (store_of [bob; ann; ann])
     = Ok ([] ++ [ann; ann]).
Proof.
  assert (F : find ["name"] (by_id (get "_id" ann)) no_options (store_of [bob])
              = Ok []) by (vm_compute; reflexivity).
  assert (I1 : insert ann (store_of [bob]) = (Ok tt, store_of [bob; ann]))
    by (vm_compute; reflexivity).
  assert (I2 : insert ann (store_of [bob; ann])
               = (Ok tt, store_of [bob; ann; ann]))
    by (vm_compute; reflexivity).
  exact (conj ann_storable (conj F (conj I1 (conj I2
           (insert_twice ["name"] ann _ _ _ [] ann_storable F I1 I2))))).
Defined.

(** X12: [delete] goes by identifier.  After a [delete] that completes,
    [load] returns, in their order, the entities that were live and whose
    [_id] is not the [_id] of an entity that the query matched: a live
    entity that shares its identifier with a matched one is deleted too,
    whether the query matches it or not. *)
Theorem delete_by_identifier (fts : list string) (q : Query) (st st' : state) :
  delete fts q st = (Ok tt, st') ->
  exists before matched,
    load st = Ok before
    /\ Database.filter fts q before = Ok matched
    /\ load st' = Ok (List.filter (kept matched) before).
Proof.
  intros H. apply delete_Ok in H.
  destruct H as (all & matched & Hall & Hm & _ & _ & Hl).
  exists (live all), matched. unfold load at 1. rewrite Hall. simpl.
  repeat split; try assumption. now rewrite Hl, live_mark.
Qed.

Lemma delete_by_identifier_witness :
  delete ["name"] [Text "ann"] (store_of [ann; bob; cat_sat])
  = (Ok tt, snd (delete ["name"] [Text "ann"] (store_of [ann; bob; cat_sat])))
  /\ exists before matched,
      load (store_of [ann; bob; cat_sat]) = Ok before
      /\ Database.filter ["name"] [Text "ann"] before = Ok matched
      /\ load (snd (delete ["name"] [Text "ann"] (store_of [ann; bob; cat_sat])))
         = Ok (List.filter (kept matched) before).
Proof.
  assert (D : delete ["name"] [Text "ann"] (store_of [ann; bob; cat_sat])
              = (Ok tt, snd (delete ["name"] [Text "ann"]
                               (store_of [ann; bob; cat_sat]))))
    by (vm_compute; reflexivity).
  exact (conj D (delete_by_identifier ["name"] _ _ _ D)).
Defined.

(** X13: after a [delete] that completes, [find] with the same query
    returns nothing, whatever the query is. *)
Theorem delete_hides (fts : list string) (q : Query) (st st' : state) :
  delete fts q st = (Ok tt, st') ->
  find fts q no_options st' = Ok [].
Proof.
  intros H. apply delete_leaves_none in H. destruct H as (rest & Hl & Hn).
  now rewrite find_no_options, Hl.
Qed.

Lemma delete_hides_witness :
  delete ["name"] [Or [both; [("b", Q_gt (VNum 1))]]] (store_of [a1b2; a1b1; no_a_b1])
  = (Ok tt, snd (delete ["name"] [Or [both; [("b", Q_gt (VNum 1))]]]
                   (store_of [a1b2; a1b1; no_a_b1])))
  /\ find ["name"] [Or [both; [("b", Q_gt (VNum 1))]]] no_options
       (snd (delete ["name"] [Or [both; [("b", Q_gt (VNum 1))]]]
               (store_of [a1b2; a1b1; no_a_b1])))
     = Ok [].
Proof.
  assert (D : delete ["name"] [Or [both; [("b", Q_gt (VNum 1))]]]
                (store_of [a1b2; a1b1; no_a_b1])
              = (Ok tt, snd (delete ["name"] [Or [both; [("b", Q_gt (VNum 1))]]]
                               (store_of [a1b2; a1b1; no_a_b1]))))
    by (vm_compute; reflexivity).
  exact (conj D (delete_hides ["name"] _ _ _ D)).
Defined.

(** X14: a [delete] that completed can be repeated: the second call
    completes too and leaves what [load] returns unchanged. *)
Theorem delete_again (fts : list string) (q : Query) (st st1 : state) :
  delete fts q st = (Ok tt, st1) ->
  exists st2,
    delete fts q st1 = (Ok tt, st2) /\ load st2 = load st1.
Proof.
  intros H. pose proof H as H'. apply delete_leaves_none in H'.
  destruct H' as (rest & Hl & Hn). apply delete_Ok in H.
  destruct H as (all & matched & _ & _ & Hf & Hall1 & _).
  apply flush_Ok in Hf. destruct Hf as (all0 & _ & _ & Hlock & _ & _).
  eexists. split.
  - unfold delete. rewrite Hl, Hn. unfold flush. rewrite Hlock, Hall1.
    reflexivity.
  - unfold load, loadAll at 1, readFile. simpl.
    rewrite flushData_lines, parseData_lines, Hall1. simpl. f_equal.
    unfold rewritten. simpl. rewrite List.app_nil_r, map_mark_nil.
    apply live_reread. apply Forall_forall. intros r Hr.
    apply in_map_iff in Hr. destruct Hr as (x & <- & _). apply reread_plain.
Qed.

Lemma delete_again_witness :
  delete ["name"] (by_id (VNum 1)) (store_of [ann; bob])
  = (Ok tt, snd (delete ["name"] (by_id (VNum 1)) (store_of [ann; bob])))
  /\ exists st2,
      delete ["name"] (by_id (VNum 1))
        (snd (delete ["name"] (by_id (VNum 1)) (store_of [ann; bob])))
      = (Ok tt, st2)
      /\ load st2
         = load (snd (delete ["name"] (by_id (VNum 1)) (store_of [ann; bob]))).
Proof.
  assert (D : delete ["name"] (by_id (VNum 1)) (store_of [ann; bob])
              = (Ok tt, snd (delete ["name"] (by_id (VNum 1))
                               (store_of [ann; bob]))))
    by (vm_compute; reflexivity).
  exact (conj D (delete_again ["name"] _ _ _ D)).
Defined.

(** X15: an identifier that was deleted can be used again: after
    [delete] by the identifier of an entity and [insert] of the entity,
    [find] by that identifier returns the entity once, however many
    records with that identifier the log holds (for an entity that holds
    JSON data and has no field [exists]). *)
Theorem insert_after_delete (fts : list string) (e : object) (st st1 st2 : state) :
  storable e ->
  delete fts (by_id (get "_id" e)) st = (Ok tt, st1) ->
  insert e st1 = (Ok tt, st2) ->
  find fts (by_id (get "_id" e)) no_options st2 = Ok [e].
Proof.
  intros Hs Hd Hi. apply delete_leaves_none in Hd.
  destruct Hd as (rest & Hl & Hn).
  apply insert_load in Hi. destruct Hi as (all & _ & L1 & L2).
  rewrite L1 in Hl. injection Hl as E. rewrite E in L2.
  rewrite stored_storable in L2 by exact Hs.
  rewrite find_no_options, L2. simpl. rewrite filter_by_id in *.
  injection Hn as Hn. rewrite filter_app, Hn. simpl.
  unfold strict_eq. now rewrite value_eqb_refl.
Qed.

Lemma insert_after_delete_witness :
  storable ann
  /\ delete ["name"] (by_id (get "_id" ann)) (store_of [ann; bob; ann])
     = (Ok tt, snd (delete ["name"] (by_id (get "_id" ann))
                      (store_of [ann; bob; ann])))
  /\ insert ann (snd (delete ["name"] (by_id (get "_id" ann))
                        (store_of [ann; bob; ann])))
     = (Ok tt, snd (insert ann (snd (delete ["name"] (by_id (get "_id" ann))
                                       (store_of [ann; bob; ann])))))
  /\ find ["name"] (by_id (get "_id" ann)) no_options
       (snd (insert ann (snd (delete ["name"] (by_id (get "_id" ann))
                                (store_of [ann; bob; ann])))))
     = Ok [ann].
Proof.
  assert (D : delete ["name"] (by_id (get "_id" ann)) (store_of [ann; bob; ann])
              = (Ok tt, snd (delete ["name"] (by_id (get "_id" ann))
                               (store_of [ann; bob; ann]))))
    by (vm_compute; reflexivity).
  assert (I : insert ann (snd (delete ["name"] (by_id (get "_id" ann))
                                 (store_of [ann; bob; ann])))
              = (Ok tt, snd (insert ann (snd (delete ["name"]
                                                (by_id (get "_id" ann))
                                                (store_of [ann; bob; ann]))))))
    by (vm_compute; reflexivity).
  exact (conj ann_storable (conj D (conj I
           (insert_after_delete ["name"] ann _ _ _ ann_storable D I)))).
Defined.

(** ** The text of the log *)

Lemma stringify_norm (o : object) :
  NoDup (keys o) -> JSON.stringify (norm o) = JSON.stringify o.
Proof.
  intros H. unfold JSON.stringify, norm.
  assert (N : NoDup (keys (List.filter JSON.defined o))).
  { clear -H. induction o as [|[k v] o IH]; simpl; [constructor|].
    inversion H as [|? ? Hk Ho]; subst.
    destruct (JSON.defined (k, v)); [|now apply IH].
    simpl. constructor; [|now apply IH].
    intros Hin. apply Hk. unfold keys in *. apply in_map_iff in Hin.
    destruct Hin as (kv & <- & Hin). apply filter_In in Hin.
    apply in_map. apply Hin. }
  rewrite fold_assign_app by exact N. simpl.
  assert (I : List.filter JSON.defined (List.filter JSON.defined o)
              = List.filter JSON.defined o).
  { clear. induction o as [|kv o IH]; simpl; [reflexivity|].
    destruct (JSON.defined kv) eqn:D; simpl; [rewrite D, IH|]; auto. }
  now rewrite I.
Qed.

Lemma toLine_reread (r : object) :
  NoDup (keys r) -> toLine (reread r) = toLine r.
Proof.
  intros H. unfold toLine. rewrite exists_reread, omit_reread. f_equal.
  apply stringify_norm. now apply omit_NoDup.
Qed.

Lemma lines_reread (rs : list object) :
  Forall (fun r => NoDup (keys r)) rs -> lines (map reread rs) = lines rs.
Proof.
  intros H. unfold lines. f_equal. rewrite map_map.
  apply map_ext_in. intros r Hr. f_equal. apply toLine_reread.
  rewrite Forall_forall in H. now apply H.
Qed.

Lemma rewritten_NoDup (all ins dels : list object) :
  Forall plain all -> Forall (fun e => NoDup (keys e)) ins ->
  Forall (fun r => NoDup (keys r)) (rewritten all ins dels).
Proof.
  intros Ha Hi. unfold rewritten. apply Forall_app. split.
  - apply Forall_map. eapply Forall_impl; [|exact Ha].
    intros r [Hn _]. unfold mark. destruct (includes _ _); [|exact Hn].
    now apply set_NoDup.
  - apply Forall_map. eapply Forall_impl; [|exact Hi].
    intros e He. now apply set_NoDup.
Qed.

(** X16: the text that [flush] writes is a fixed point of the rewrite: on
    a file that a completed [flush] wrote, a [delete] whose query matches
    nothing completes and writes back the same text, character for
    character. *)
Theorem rewrite_stable (fts : list string) (ins dels : list object)
  (st st1 : state) (q : Query) (rest : list object) :
  Forall (fun e => NoDup (keys e)) ins ->
  flush ins dels st = (Ok tt, st1) ->
  load st1 = Ok rest ->
  Database.filter fts q rest = Ok [] ->
  delete fts q st1 = (Ok tt, st1).
Proof.
  intros Hi Hf Hl Hq. apply flush_Ok in Hf.
  destruct Hf as (all & _ & Hall & Hlock & Hfile & Hall1).
  unfold delete. rewrite Hl, Hq. unfold flush. rewrite Hlock, Hall1.
  f_equal. destruct st1 as [f l]. simpl in *. subst l. f_equal.
  rewrite Hfile. f_equal.
  rewrite !flushData_lines. unfold rewritten at 1. simpl.
  rewrite List.app_nil_r, map_mark_nil.
  apply lines_reread, rewritten_NoDup; [|exact Hi].
  apply record_ok_plain. eapply loadAll_ok. exact Hall.
Qed.

Lemma rewrite_stable_witness :
  Forall (fun e => NoDup (keys e)) [ann]
  /\ flush [ann] [bob] (store_of [bob]) = (Ok tt, snd (flush [ann] [bob] (store_of [bob])))
  /\ load (snd (flush [ann] [bob] (store_of [bob]))) = Ok [ann]
  /\ Database.filter ["name"] (by_id (VNum 2)) [ann] = Ok []
  /\ delete ["name"] (by_id (VNum 2)) (snd (flush [ann] [bob] (store_of [bob])))
     = (Ok tt, snd (flush [ann] [bob] (store_of [bob]))).
Proof.
  assert (N : Forall (fun e => NoDup (keys e)) [ann])
    by (repeat constructor; simpl; intuition discriminate).
  assert (F : flush [ann] [bob] (store_of [bob])
              = (Ok tt, snd (flush [ann] [bob] (store_of [bob]))))
    by (vm_compute; reflexivity).
  assert (L : load (snd (flush [ann] [bob] (store_of [bob]))) = Ok [ann])
    by (vm_compute; reflexivity).
  assert (Q : Database.filter ["name"] (by_id (VNum 2)) [ann] = Ok [])
    by (vm_compute; reflexivity).
  exact (conj N (conj F (conj L (conj Q
           (rewrite_stable ["name"] [ann] [bob] _ _ _ [ann] N F L Q))))).
Defined.

Lemma split_app (sep : ascii) (a b : string) :
  split sep (a ++ String sep b) = split sep a ++ split sep b.
Proof.
  induction a as [|c r IH]; simpl.
  - now rewrite Ascii.eqb_refl.
  - destruct (Ascii.eqb c sep); [now rewrite IH|].
    rewrite IH. destruct (split sep r) as [|w ws] eqn:E; [|reflexivity].
    now apply split_nonempty in E.
Qed.

Lemma mapM_app {A B : Type} (f : A -> result B) (xs ys : list A)
  (xs' ys' : list B) :
  mapM f xs = Ok xs' -> mapM f ys = Ok ys' -> mapM f (xs ++ ys) = Ok (xs' ++ ys').
Proof.
  revert xs'. induction xs as [|x xs IH]; intros xs'; simpl.
  - now intros [= <-].
  - destruct (f x) as [y|]; [|discriminate]. simpl.
    destruct (mapM f xs) as [r|]; [|discriminate]. simpl.
    intros [= <-] H. now rewrite (IH r eq_refl H).
Qed.

(** X17: two logs joined by a newline read as the records of the first
    followed by the records of the second. *)
Theorem parseData_app (a b : string) (ra rb : list object) :
  parseData a = Ok ra -> parseData b = Ok rb ->
  parseData (a ++ String newline b) = Ok (ra ++ rb).
Proof.
  unfold parseData. intros Ha Hb. rewrite split_app, filter_app.
  now apply mapM_app.
Qed.

Lemma parseData_app_witness :
  parseData (lines [set "exists" (VBool true) ann])
  = Ok [set "exists" (VBool true) ann]
  /\ parseData (lines [set "exists" (VBool false) bob])
     = Ok [set "exists" (VBool false) bob]
  /\ parseData (lines [set "exists" (VBool true) ann]
                ++ String newline (lines [set "exists" (VBool false) bob]))
     = Ok ([set "exists" (VBool true) ann] ++ [set "exists" (VBool false) bob]).
Proof.
  assert (A : parseData (lines [set "exists" (VBool true) ann])
              = Ok [set "exists" (VBool true) ann]) by (vm_compute; reflexivity).
  assert (B : parseData (lines [set "exists" (VBool false) bob])
              = Ok [set "exists" (VBool false) bob]) by (vm_compute; reflexivity).
  exact (conj A (conj B (parseData_app _ _ _ _ A B))).
Defined.

(** X18: [loadAll] skips empty lines: a blank line between two lines, a
    newline before the first line and a newline after the last line
    change nothing in what is read, nor in whether reading throws. *)
Theorem parseData_blank_lines (a b : string) :
  parseData (a ++ String newline (String newline b))
  = parseData (a ++ String newline b)
  /\ parseData (String newline a) = parseData a
  /\ parseData (a ++ String newline "") = parseData a.
Proof.
  unfold parseData. split; [|split].
  - rewrite !split_app. simpl. now rewrite !filter_app.
  - reflexivity.
  - rewrite split_app, filter_app. simpl. now rewrite List.app_nil_r.
Qed.

(** ** Failures and what no call changes *)

(** X19: when the log cannot be read (the file is missing, or a line
    does not parse), [insert] throws the error of the read and writes
    nothing, and the database stays unusable for writing: every later
    [insert] throws that same error, since [this.lock] stays rejected,
    every later [delete] throws it too, and none of them changes the
    file. *)
Theorem read_failure_sticks (fts : list string) (e : object) (st : state)
  (err : JsError) :
  lock st = None ->
  loadAll st = Throw err ->
  exists st',
    insert e st = (Throw err, st')
    /\ file st' = file st
    /\ (forall e', insert e' st' = (Throw err, st'))
    /\ (forall q, delete fts q st' = (Throw err, st')).
Proof.
  intros Hl Hr. exists {| file := file st; lock := Some err |}.
  split; [|split; [reflexivity|split]].
  - unfold insert, flush. now rewrite Hl, Hr.
  - intros e'. reflexivity.
  - intros q. unfold delete, load.
    assert (R : loadAll {| file := file st; lock := Some err |} = Throw err)
      by exact Hr.
    now rewrite R.
Qed.

Lemma read_failure_sticks_witness :
  lock {| file := Some "Eann"; lock := None |} = None
  /\ loadAll {| file := Some "Eann"; lock := None |} = Throw BadSyntax
  /\ exists st',
      insert ann {| file := Some "Eann"; lock := None |} = (Throw BadSyntax, st')
      /\ file st' = file {| file := Some "Eann"; lock := None |}
      /\ (forall e', insert e' st' = (Throw BadSyntax, st'))
      /\ (forall q, delete ["name"] q st' = (Throw BadSyntax, st')).
Proof.
  assert (R : loadAll {| file := Some "Eann"; lock := None |} = Throw BadSyntax)
    by (vm_compute; reflexivity).
  exact (conj eq_refl (conj R
           (read_failure_sticks ["name"] ann
              {| file := Some "Eann"; lock := None |} BadSyntax eq_refl R))).
Defined.

Lemma flush_file_none (ins dels : list object) (st : state) :
  file st = None -> file (snd (flush ins dels st)) = None.
Proof.
  intros H. unfold flush. destruct (lock st); [exact H|].
  unfold loadAll, readFile. rewrite H. reflexivity.
Qed.

(** X20: the database never creates its file: when the file does not
    exist, it still does not exist after any calls of [insert] and
    [delete], and every [find] throws [ENOENT]. *)
Theorem file_never_created (fts : list string) (ops : list op) (st : state) :
  file st = None ->
  file (after fts ops st) = None
  /\ forall q opts, find fts q opts (after fts ops st) = Throw ENOENT.
Proof.
  intros H.
  assert (F : file (after fts ops st) = None).
  { revert st H. induction ops as [|o ops IH]; intros st H; [exact H|].
    simpl. apply IH. destruct o as [e|q].
    - now apply flush_file_none.
    - unfold delete, load, loadAll, readFile. rewrite H. simpl. exact H. }
  split; [exact F|].
  intros q opts. unfold find, load, loadAll, readFile. now rewrite F.
Qed.

Lemma file_never_created_witness :
  file no_file = None
  /\ file (after ["name"] [OpInsert ann; OpDelete []; OpInsert bob] no_file)
     = None
  /\ forall q opts,
      find ["name"] q opts
        (after ["name"] [OpInsert ann; OpDelete []; OpInsert bob] no_file)
      = Throw ENOENT.
Proof.
  exact (conj eq_refl
           (file_never_created ["name"]
              [OpInsert ann; OpDelete []; OpInsert bob] no_file eq_refl)).
Defined.

Lemma continues_refl (all : list object) : continues all all.
Proof.
  exists all, []. split; [now rewrite List.app_nil_r|].
  induction all; constructor; auto.
Qed.

Lemma continues_trans (a b c : list object) :
  continues a b -> continues b c -> continues a c.
Proof.
  intros (old1 & new1 & -> & F1) (old2 & new2 & -> & F2).
  apply Forall2_app_inv_l in F2.
  destruct F2 as (o1 & o2 & G1 & G2 & ->).
  exists o1, (o2 ++ new2). split; [now rewrite <- List.app_assoc|].
  clear G2. revert o1 G1. induction F1 as [|r r' l l' [H1 H2] F IH]; intros o1 G1.
  - inversion G1. constructor.
  - inversion G1 as [|? r'' ? l'' [H3 H4] G]; subst. constructor.
    + split; [congruence | auto].
    + now apply IH.
Qed.

Lemma continues_rewritten (all ins dels : list object) :
  Forall plain all ->
  continues all (map reread (rewritten all ins dels)).
Proof.
  intros Hp. unfold rewritten. rewrite map_app.
  eexists _, _. split; [reflexivity|].
  induction Hp as [|r all Hr Hall IH]; simpl; constructor; [|exact IH].
  split.
  - rewrite omit_reread. unfold mark.
    destruct (includes _ _); rewrite ?omit_set;
      apply norm_plain; now apply omit_plain.
  - rewrite exists_reread. unfold mark. destruct (includes _ _); [|auto].
    unfold exists_. rewrite get_set_same. discriminate.
Qed.

Lemma flush_continues (ins dels all : list object) (st : state) :
  loadAll st = Ok all ->
  exists all', loadAll (snd (flush ins dels st)) = Ok all' /\ continues all all'.
Proof.
  intros H. unfold flush. destruct (lock st).
  - exists all. split; [exact H | apply continues_refl].
  - rewrite H. simpl. eexists. split.
    + apply (loadAll_flushData all ins dels).
    + apply continues_rewritten, record_ok_plain. eapply loadAll_ok. exact H.
Qed.

(** X21: with a [writeFile] that does not fail, no call loses a record
    or brings one back.  If [this.lock] is fulfilled and the log can be
    read, then after any calls of [insert] and [delete], each awaited,
    among them calls of [delete] whose query makes [filter] throw, the
    lock is still fulfilled and the log can still be read; the records it
    had are there in the same order with the same content, those that
    were deleted are still deleted, and new records come after them. *)
Theorem log_kept (fts : list string) (ops : list op) (st : state)
  (all : list object) :
  lock st = None ->
  loadAll st = Ok all ->
  exists all',
    lock (after fts ops st) = None
    /\ loadAll (after fts ops st) = Ok all'
    /\ continues all all'.
Proof.
  revert st all. induction ops as [|o ops IH]; intros st all Hl H.
  - exists all. split; [exact Hl|]. split; [exact H | apply continues_refl].
  - simpl.
    assert (F : forall ins dels,
               lock (snd (flush ins dels st)) = None
               /\ exists all1, loadAll (snd (flush ins dels st)) = Ok all1
                               /\ continues all all1).
    { intros ins dels. split; [|now apply flush_continues].
      unfold flush. now rewrite Hl, H. }
    assert (S : lock (match o with
                      | OpInsert entity => snd (insert entity st)
                      | OpDelete query => snd (delete fts query st)
                      end) = None
                /\ exists all1,
                     loadAll (match o with
                              | OpInsert entity => snd (insert entity st)
                              | OpDelete query => snd (delete fts query st)
                              end) = Ok all1 /\ continues all all1).
    { destruct o as [e|q].
      - apply F.
      - unfold delete. destruct (load st) as [ents|].
        + destruct (Database.filter fts q ents).
          * apply F.
          * split; [exact Hl|]. exists all.
            split; [exact H | apply continues_refl].
        + split; [exact Hl|]. exists all.
          split; [exact H | apply continues_refl]. }
    destruct S as (Hl1 & all1 & H1 & C1).
    destruct (IH _ _ Hl1 H1) as (all' & Hl' & H' & C').
    exists all'. split; [exact Hl'|].
    split; [exact H' | eapply continues_trans; eauto].
Qed.

Lemma log_kept_witness :
  lock (store_of [ann; a1b1]) = None
  /\ loadAll (store_of [ann; a1b1])
     = Ok [set "exists" (VBool true) ann; set "exists" (VBool true) a1b1]
  /\ exists all',
      lock (after ["name"]
              [OpDelete (by_id (VNum 1)); OpDelete [Text "lee"]; OpInsert ann]
              (store_of [ann; a1b1]))
      = None
      /\ loadAll (after ["name"]
                    [OpDelete (by_id (VNum 1)); OpDelete [Text "lee"];
                     OpInsert ann]
                    (store_of [ann; a1b1]))
         = Ok all'
      /\ continues
           [set "exists" (VBool true) ann; set "exists" (VBool true) a1b1]
           all'.
Proof.
  assert (L : loadAll (store_of [ann; a1b1])
              = Ok [set "exists" (VBool true) ann;
                    set "exists" (VBool true) a1b1])
    by (vm_compute; reflexivity).
  exact (conj eq_refl (conj L
           (log_kept ["name"]
              [OpDelete (by_id (VNum 1)); OpDelete [Text "lee"]; OpInsert ann]
              (store_of [ann; a1b1]) _ eq_refl L))).
Defined.

(** ** Calls that are not awaited *)

Lemma flushed_snoc (done : list mutation) (m : mutation) (st : state) :
  flushed (done ++ [m]) st
  = snd (flush (inserts m) (deletes m) (flushed done st)).
Proof. unfold flushed. now rewrite fold_left_app. Qed.

Lemma linear_run (d0 : option string) (t : list event) (l : loop) :
  run (opened d0) t l -> linear d0 t l.
Proof.
  induction 1 as [|t l l' ev Hrun IH Hstep].
  - exists []. simpl. repeat split.
  - destruct IH as (done & Hc & Hs & Hw).
    unfold linear. rewrite calls_snoc, Hc.
    inversion Hstep; subst; simpl in *.
    + exists done. split; [now rewrite <- !List.app_assoc|]. now split.
    + exists done. split; [now rewrite List.app_nil_r|]. now split.
    + exists done. split; [now rewrite List.app_nil_r|].
      split; [exact Hs|]. exists all. now split.
    + exists (done ++ [m]).
      split; [now rewrite List.app_nil_r, <- List.app_assoc|].
      split; [|exact I]. rewrite flushed_snoc, <- Hs.
      unfold flush, settled. simpl. unfold on_disk in H.
      unfold loadAll, readFile in *. simpl in *. now rewrite H.
    + exists (done ++ [m]).
      split; [now rewrite List.app_nil_r, <- List.app_assoc|].
      split; [|exact I]. rewrite flushed_snoc, <- Hs.
      destruct Hw as (all & Hall & ->).
      unfold flush, settled. simpl. unfold on_disk in Hall.
      unfold loadAll, readFile in *. simpl in *. now rewrite Hall.
    + exists (done ++ [m]).
      split; [now rewrite List.app_nil_r, <- List.app_assoc|].
      split; [|exact I]. rewrite flushed_snoc, <- Hs. reflexivity.
Qed.

(** every pending call gets its turn, whether callbacks throw or not *)
Lemma drain_chain (ms : list mutation) :
  forall (d : option string) (c : running),
    in_flight c = [] ->
    exists t l, run {| disk := d; chain := ms; current := c |} t l
                /\ calls t = [] /\ chain l = [] /\ in_flight (current l) = [].
Proof.
  induction ms as [|m ms IH]; intros d c Hc.
  - exists [], {| disk := d; chain := []; current := c |}.
    repeat split; [constructor | exact Hc].
  - destruct c as [|m0|m0 data|e]; try discriminate.
    + destruct (loadAll (on_disk d)) as [all|e] eqn:L.
      * destruct (IH (Some (flushData all (inserts m) (deletes m))) Idle eq_refl)
          as (t & l & R & C & Hch & Hin).
        exists ([Begin m; Read m; Rewritten m] ++ t), l.
        repeat split; try assumption.
        eapply run_app; [|exact R].
        change [Begin m; Read m; Rewritten m]
          with ((([] ++ [Begin m]) ++ [Read m]) ++ [Rewritten m]).
        eapply run_snoc; [eapply run_snoc; [eapply run_snoc|]|].
        -- constructor.
        -- apply step_begin.
        -- apply step_read. exact L.
        -- apply step_rewritten.
      * destruct (IH d (Rejected e) eq_refl) as (t & l & R & C & Hch & Hin).
        exists ([Begin m; Failed m e] ++ t), l.
        repeat split; try assumption.
        eapply run_app; [|exact R].
        change [Begin m; Failed m e] with (([] ++ [Begin m]) ++ [Failed m e]).
        eapply run_snoc; [eapply run_snoc|].
        -- constructor.
        -- apply step_begin.
        -- apply step_failed. exact L.
    + destruct (IH d (Rejected e) eq_refl) as (t & l & R & C & Hch & Hin).
      exists ([Skipped m] ++ t), l.
      repeat split; try assumption.
      eapply run_app; [|exact R].
      change [Skipped m] with ([] ++ [Skipped m]).
      eapply run_snoc; [constructor | apply step_skipped].
Qed.

Lemma drain_any (l : loop) :
  exists t' l', run l t' l'
                /\ calls t' = [] /\ chain l' = [] /\ in_flight (current l') = [].
Proof.
  destruct l as [d ms c]. destruct c as [|m|m data|e].
  - now apply drain_chain.
  - destruct (loadAll (on_disk d)) as [all|e] eqn:L.
    + destruct (drain_chain ms (Some (flushData all (inserts m) (deletes m)))
                  Idle eq_refl) as (t & l & R & C & Hch & Hin).
      exists ([Read m; Rewritten m] ++ t), l.
      repeat split; try assumption.
      eapply run_app; [|exact R].
      change [Read m; Rewritten m] with (([] ++ [Read m]) ++ [Rewritten m]).
      eapply run_snoc; [eapply run_snoc|].
      * constructor.
      * apply step_read. exact L.
      * apply step_rewritten.
    + destruct (drain_chain ms d (Rejected e) eq_refl)
        as (t & l & R & C & Hch & Hin).
      exists ([Failed m e] ++ t), l.
      repeat split; try assumption.
      eapply run_app; [|exact R].
      change [Failed m e] with ([] ++ [Failed m e]).
      eapply run_snoc; [constructor | apply step_failed; exact L].
  - destruct (drain_chain ms (Some data) Idle eq_refl)
      as (t & l & R & C & Hch & Hin).
    exists ([Rewritten m] ++ t), l.
    repeat split; try assumption.
    eapply run_app; [|exact R].
    change [Rewritten m] with ([] ++ [Rewritten m]).
    eapply run_snoc; [constructor | apply step_rewritten].
  - now apply drain_chain.
Qed.

(** X22: calls of [flush] that are not awaited take effect one at a time
    in the order of the calls.  However calls and turns of the event loop
    interleave, and whether callbacks throw or not, once no callback is
    pending or running the file and [this.lock] are what the same calls,
    each awaited before the next, would have left; and from every point
    the pending callbacks can run until none is left. *)
Theorem calls_linearize (d0 : option string) (t : list event) (l : loop) :
  run (opened d0) t l ->
  (chain l = [] -> in_flight (current l) = [] ->
   settled l = flushed (calls t) (on_disk d0))
  /\ exists t' l',
       run l t' l'
       /\ calls t' = [] /\ chain l' = [] /\ in_flight (current l') = [].
Proof.
  intros R. split; [|apply drain_any].
  intros Hc Hi. destruct (linear_run d0 t l R) as (done & C & S & _).
  rewrite Hc, Hi, !List.app_nil_r in C. now rewrite C.
Qed.

Lemma calls_linearize_witness :
  run (opened (Some "")) two_calls after_two_calls
  /\ ((chain after_two_calls = [] -> in_flight (current after_two_calls) = [] ->
       settled after_two_calls = flushed (calls two_calls) (on_disk (Some "")))
      /\ exists t' l',
           run after_two_calls t' l'
           /\ calls t' = [] /\ chain l' = [] /\ in_flight (current l') = []).
Proof.
  assert (R : run (opened (Some "")) two_calls after_two_calls)
    by exact two_calls_run.
  exact (conj R (calls_linearize (Some "") two_calls after_two_calls R)).
Defined.

(** ** The read-only database on the same file *)

Lemma live_lines (ls : list string) (all : list object) :
  mapM decode (List.filter nonempty ls) = Ok all ->
  exists ents1,
    mapM Database1.parse_line (List.filter Database1.live_line ls) = Ok ents1
    /\ live all = map (omit "exists") ents1.
Proof.
  revert all. induction ls as [|x ls IH]; intros all; simpl.
  - intros [= <-]. exists []. now split.
  - destruct (nonempty x) eqn:N.
    + simpl. unfold decode at 1.
      destruct (JSON.parse (slice1 x)) as [o|] eqn:P; [|discriminate]. simpl.
      destruct (mapM decode (List.filter nonempty ls)) as [rs|]; [|discriminate].
      simpl. intros [= <-]. destruct (IH rs eq_refl) as (ents1 & E1 & E2).
      assert (T : Database1.live_line x
                  = match x with String "E" _ => true | _ => false end)
        by reflexivity.
      destruct (match x with String "E" _ => true | _ => false end) eqn:Tag;
        rewrite T.
      * simpl. unfold Database1.parse_line at 1. rewrite P. simpl.
        rewrite E1. simpl. eexists. split; [reflexivity|].
        unfold live. simpl. unfold exists_ at 1. rewrite get_set_same. simpl.
        rewrite omit_set. f_equal. exact E2.
      * exists ents1. split; [exact E1|].
        unfold live. simpl. unfold exists_ at 1. rewrite get_set_same. simpl.
        exact E2.
    + intros H. destruct (IH all H) as (ents1 & E1 & E2).
      exists ents1. split; [|exact E2].
      unfold nonempty in N. apply negb_false_iff, String.eqb_eq in N.
      subst x. exact E1.
Qed.

Lemma decode_object_lines (ls : list string) :
  Forall object_line ls -> exists all, mapM decode ls = Ok all.
Proof.
  induction 1 as [|x ls [o P] Hls [all IH]]; simpl; [now exists []|].
  unfold decode at 1. rewrite P. simpl. rewrite IH. simpl. eauto.
Qed.

Lemma object_lines_written (rs : list object) :
  Forall object_line (List.filter nonempty (split newline (lines rs))).
Proof.
  rewrite split_lines.
  change (List.filter nonempty (EmptyString :: map toLine rs))
    with (List.filter nonempty (map toLine rs)).
  rewrite nonempty_toLine. apply Forall_map, Forall_forall. intros r _.
  exists (norm (omit "exists" r)). unfold toLine. simpl slice1.
  apply parse_stringify.
Qed.

(** X23: on a file whose non-empty lines each hold, after the tag
    character, a JSON object (of the modelled fragment), [load] of the
    database with deletion and [load] of the read-only database both
    return, and the entities are the same up to a field [exists] that a
    line itself may hold: the older reader keeps it, the newer one drops
    it. *)
Theorem load_live_lines (data : string) :
  Forall object_line (List.filter nonempty (split newline data)) ->
  exists ents ents1,
    load (on_disk (Some data)) = Ok ents
    /\ Database1.load (Some data) = Ok ents1
    /\ ents = map (omit "exists") ents1.
Proof.
  intros H. destruct (decode_object_lines _ H) as [all M].
  destruct (live_lines _ _ M) as (ents1 & E1 & E2).
  exists (live all), ents1. split; [|split; [exact E1 | exact E2]].
  unfold load, loadAll, readFile, parseData. simpl. now rewrite M.
Qed.

Lemma load_live_lines_witness :
  Forall object_line
    (List.filter nonempty
       (split newline
          (lines [set "exists" (VBool false) ann; flagged;
                  set "exists" (VBool true) bob])))
  /\ exists ents ents1,
      load (on_disk (Some (lines [set "exists" (VBool false) ann; flagged;
                                  set "exists" (VBool true) bob])))
      = Ok ents
      /\ Database1.load (Some (lines [set "exists" (VBool false) ann; flagged;
                                      set "exists" (VBool true) bob]))
         = Ok ents1
      /\ ents = map (omit "exists") ents1.
Proof.
  assert (H : Forall object_line
                (List.filter nonempty
                   (split newline
                      (lines [set "exists" (VBool false) ann; flagged;
                              set "exists" (VBool true) bob]))))
    by apply object_lines_written.
  exact (conj H (load_live_lines _ H)).
Defined.

Lemma live_line_toLine (r : object) : Database1.live_line (toLine r) = exists_ r.
Proof. unfold toLine. now destruct (exists_ r). Qed.

Lemma parse_line_toLine (r : object) :
  Database1.parse_line (toLine r) = Ok (norm (omit "exists" r)).
Proof.
  unfold Database1.parse_line, toLine. simpl slice1. now rewrite parse_stringify.
Qed.

Lemma parse_lines_written (rs : list object) :
  mapM Database1.parse_line (List.filter Database1.live_line (map toLine rs))
  = Ok (live (map reread rs)).
Proof.
  induction rs as [|r rs IH]; [reflexivity|].
  cbn [map List.filter]. rewrite live_line_toLine.
  unfold live in *. cbn [map List.filter]. rewrite exists_reread.
  destruct (exists_ r).
  - cbn [mapM map]. rewrite parse_line_toLine, IH. simpl.
    now rewrite omit_reread.
  - exact IH.
Qed.

(** X24: on a file that a completed [flush] wrote, [find] of the
    read-only database and [find] without options of the database with
    deletion return the same, or throw the same, for every query. *)
Theorem find_agrees (fts : list string) (ins dels : list object)
  (st st1 : state) (q : Query) :
  flush ins dels st = (Ok tt, st1) ->
  Database1.find fts q (file st1) = find fts q no_options st1.
Proof.
  intros H. apply flush_Ok in H.
  destruct H as (all & _ & _ & _ & Hfile & Hall1).
  rewrite find_no_options. unfold Database1.find, load. rewrite Hall1, Hfile.
  simpl. rewrite flushData_lines, split_lines. simpl.
  now rewrite parse_lines_written.
Qed.

Lemma find_agrees_witness :
  flush [flagged] [ann] (store_of [ann; bob])
  = (Ok tt, snd (flush [flagged] [ann] (store_of [ann; bob])))
  /\ Database1.find ["name"] [Text "lee"]
       (file (snd (flush [flagged] [ann] (store_of [ann; bob]))))
     = find ["name"] [Text "lee"] no_options
         (snd (flush [flagged] [ann] (store_of [ann; bob]))).
Proof.
  assert (F : flush [flagged] [ann] (store_of [ann; bob])
              = (Ok tt, snd (flush [flagged] [ann] (store_of [ann; bob]))))
    by (vm_compute; reflexivity).
  exact (conj F (find_agrees ["name"] [flagged] [ann] _ _ [Text "lee"] F)).
Defined.

(** ** [filterUsers] *)

Lemma get_app_l (k : string) (a b : object) :
  In k (keys a) -> get k (a ++ b) = get k a.
Proof.
  induction a as [|[k' v] a IH]; simpl; [contradiction|].
  destruct (String.eqb k k') eqn:E; [reflexivity|].
  intros [->|H]; [now rewrite String.eqb_refl in E | now apply IH].
Qed.

Lemma get_app_r (k : string) (a b : object) :
  ~ In k (keys a) -> get k (a ++ b) = get k b.
Proof.
  induction a as [|[k' v] a IH]; simpl; [reflexivity|].
  intros H. destruct (String.eqb k k') eqn:E.
  - apply String.eqb_eq in E. subst. exfalso. apply H. now left.
  - apply IH. intros Hin. apply H. now right.
Qed.

Lemma forallb_agree {A : Type} (f g : A -> bool) (l : list A) :
  (forall x, In x l -> f x = g x) -> forallb f l = forallb g l.
Proof.
  induction l as [|x l IH]; intros H; simpl; [reflexivity|].
  rewrite (H x (or_introl eq_refl)), IH; [reflexivity|].
  intros y Hy. apply H. now right.
Qed.

(** X25: filtering the users by one criteria object and the result by a
    second one with other keys returns what filtering once by the two
    objects merged returns: the same users in the same order. *)
Theorem filterUsers_twice (persons : list object) (c1 c2 : object) :
  (forall k, In k (keys c1) -> ~ In k (keys c2)) ->
  Exercise4.filterUsers (Exercise4.filterUsers persons c1) c2
  = Exercise4.filterUsers persons (c1 ++ c2).
Proof.
  intros D. unfold Exercise4.filterUsers.
  rewrite !filter_filter. apply filter_ext_in. intros u _.
  rewrite keys_app, forallb_app.
  destruct (Exercise4.isUser u); simpl; [|reflexivity].
  f_equal.
  - apply forallb_agree. intros k Hk. now rewrite get_app_l.
  - apply forallb_agree. intros k Hk. rewrite get_app_r; [reflexivity|].
    intros H. exact (D k H Hk).
Qed.

Lemma filterUsers_twice_witness :
  (forall k, In k (keys [("age", VNum 23)]) ->
             ~ In k (keys [("name", VStr "Wilson")]))
  /\ Exercise4.filterUsers
       (Exercise4.filterUsers [mustermann; jane; wilson] [("age", VNum 23)])
       [("name", VStr "Wilson")]
     = Exercise4.filterUsers [mustermann; jane; wilson]
         ([("age", VNum 23)] ++ [("name", VStr "Wilson")]).
Proof.
  assert (D : forall k, In k (keys [("age", VNum 23)]) ->
                        ~ In k (keys [("name", VStr "Wilson")])).
  { intros k [<-|[]] [E|[]]. discriminate E. }
  exact (conj D (filterUsers_twice [mustermann; jane; wilson] _ _ D)).
Defined.
